(** * github-labeller: the label fan-out of [lib/index.js]

    A shallow embedding of [GitHubLabeller], [GitHubLabeller.checkRepo] and
    [GitHubLabeller.addToRepo], and the properties of the specification
    that can be stated over it.

    The program is callback-driven.  Its collaborators are the [gh.js]
    client ([gh.get]), the [same-time] join ([SameTime]) and Node's
    [EventEmitter]; none of them belongs to the repository.  The client
    is a parameter of the development (what it answers to a request), the
    join is represented by the reports it collects, and the order in
    which outstanding requests complete is chosen by a schedule that the
    theorems quantify over. *)

From Stdlib Require Import String Ascii List Bool Arith Lia Permutation.
Import ListNotations.
Set Warnings "-register-all".
Open Scope string_scope.
Open Scope nat_scope.
Open Scope list_scope.

(** ** JavaScript values the program touches *)

Module JS.

(** A property that holds a string or is [undefined] (absent). *)
Definition field := option string.

(** Truthiness of such a property: [undefined] and [""] are falsy. *)
Definition truthy (v : field) : bool :=
  match v with
  | Some (String _ _) => true
  | _ => false
  end.

(** [a || b] *)
Definition or_else (a b : field) : field := if truthy a then a else b.

(** String conversion, as done by [+] and by [encodeURIComponent]. *)
Definition to_string (v : field) : string :=
  match v with
  | Some s => s
  | None => "undefined"
  end.

(** The objects that travel through the program: labels as the caller
    writes them, labels and repositories as the remote returns them, and
    the [{name, color}] objects normalization builds.  [o_rest] holds any
    other own property, by key. *)
Record obj := Obj {
  o_name : field;
  o_label : field;
  o_color : field;
  o_rest : list (string * string)
}.

Inductive error :=
| Error (message : string)
| TypeError (message : string)
| Remote (detail : string).

(** [s.split("/")] *)
Fixpoint split (sep : ascii) (s : string) : list string :=
  match s with
  | EmptyString => [EmptyString]
  | String c rest =>
      if Ascii.eqb c sep then EmptyString :: split sep rest
      else match split sep rest with
           | [] => [String c EmptyString]
           | h :: t => String c h :: t
           end
  end.

(** [a.indexOf(x) > -1] on an array of names, with strict equality. *)
Definition field_eqb (a b : field) : bool :=
  match a, b with
  | Some x, Some y => String.eqb x y
  | None, None => true
  | _, _ => false
  end.

Definition includes (a : list field) (x : field) : bool :=
  existsb (field_eqb x) a.

(** [encodeURIComponent]: strings are taken as their UTF-8 bytes; every
    byte outside [A-Z a-z 0-9 - _ . ! ~ * ' ( )] becomes [%XX].  This is
    the value of the builtin where it returns one, which is on every
    string but those holding an unpaired surrogate: there it throws a
    [URIError] ([unpaired_surrogate] and [encodeURIComponent_or_throw]
    below).  The runs of this development follow the code on names the
    builtin can encode. *)
Definition unreserved (c : ascii) : bool :=
  let n := nat_of_ascii c in
  (((65 <=? n) && (n <=? 90)) || ((97 <=? n) && (n <=? 122))
   || ((48 <=? n) && (n <=? 57))
   || existsb (Nat.eqb n) [45; 95; 46; 33; 126; 42; 39; 40; 41])%nat.

Definition hex_digit (n : nat) : ascii :=
  if (n <? 10)%nat then ascii_of_nat (48 + n) else ascii_of_nat (55 + n).

Definition percent (c : ascii) : string :=
  let n := nat_of_ascii c in
  String "%" (String (hex_digit (n / 16)) (String (hex_digit (n mod 16)) EmptyString)).

Fixpoint encodeURIComponent (s : string) : string :=
  match s with
  | EmptyString => EmptyString
  | String c rest =>
      (if unreserved c then String c EmptyString else percent c)
      ++ encodeURIComponent rest
  end.

End JS.
Import JS.

(** ** Normalization (lines 56-72) *)

(** [color.charAt(0) === "#" ? color.substring(1) : color] *)
Definition strip_hash (color : string) : string :=
  match color with
  | String "#" rest => rest
  | _ => color
  end.

(** The object assigned to [labels[i]]; there is none when [cLabel.color]
    is [undefined], because [cLabel.color.charAt] throws. *)
Definition normalize (cLabel : obj) : option obj :=
  match o_color cLabel with
  | None => None
  | Some color =>
      Some {| o_name := or_else (o_name cLabel) (o_label cLabel);
              o_label := None;
              o_color := Some (strip_hash color);
              o_rest := [] |}
  end.

Inductive normalized :=
| Normalized                      (* the loop ran to the end *)
| Rejected (e : error)            (* [callback(new Error(...)); return ev] *)
| Threw (e : error).              (* an exception left the loop *)

(** Decimal rendering of the loop index in the error messages. *)
Definition digit (n : nat) : string :=
  String (ascii_of_nat (48 + n)) EmptyString.

Fixpoint decimal_aux (fuel n : nat) (acc : string) : string :=
  match fuel with
  | 0 => acc
  | S fuel' =>
      let acc' := (digit (n mod 10) ++ acc)%string in
      if (n / 10 =? 0)%nat then acc' else decimal_aux fuel' (n / 10) acc'
  end.

Definition decimal (n : nat) : string := decimal_aux (S n) n "".

Definition charAt_undefined : error :=
  TypeError "Cannot read properties of undefined (reading 'charAt')".

(** The loop from index [i] over the elements [labels] still to visit:
    the elements as the loop leaves them, and how it ended.  The element
    is overwritten before it is checked. *)
Fixpoint normalize_from (i : nat) (labels : list obj) : list obj * normalized :=
  match labels with
  | [] => ([], Normalized)
  | cLabel :: rest =>
      match normalize cLabel with
      | None => (cLabel :: rest, Threw charAt_undefined)
      | Some c =>
          if negb (truthy (o_name c)) then
            (c :: rest, Rejected (Error ("Missing name for label: " ++ decimal i)%string))
          else if negb (truthy (o_color c)) then
            (c :: rest, Rejected (Error ("Missing color for label: " ++ decimal i)%string))
          else
            let (rest', r) := normalize_from (S i) rest in
            (c :: rest', r)
      end
  end.

(** ** The client, the join and the emitter *)

(** [gh.get(endpoint, opts, cb)]: the [all] and [data] options are the only
    ones the program sets. *)
Record request := Req {
  endpoint : string;
  all : bool;
  data : option obj
}.

(** The [data] argument a write hands to its callback. *)
Inductive jsdata :=
| Null
| Undefined
| Body (o : obj).

(** What the client answers.  A listing delivers an error or an array of
    objects; a write delivers an [(err, data)] pair, [err] being [null]
    ([None]) on success.  The answer is a function of the request: two
    requests that differ in anything may be answered independently, the
    same request issued twice is answered alike. *)
Record client := Client {
  listing : request -> error + list obj;
  writing : request -> option error * jsdata
}.

(** What a callback is called with.  [Fired err data] is a plain
    [callback(err, data)] (an argument left out is [undefined]);
    [Joined reports] stands for the arguments [SameTime] builds for its
    callback once every task has called its [done]: it keeps what each
    task reported, in input order. *)
Inductive outcome :=
| Fired (err : option error) (data : jsdata)
| Joined (reports : list outcome).

Definition emitter := nat.

(** What an observer of a run can see, in the order it happens. *)
Inductive event :=
| Request (r : request)
| Added (ev : emitter) (owner repo : string) (label : obj)
        (err : option error) (data : jsdata)
| Callback (o : outcome)
| Uncaught (e : error).

(** ** Outstanding work

    A call that takes a [callback] is denoted by the work it leaves
    outstanding; the callback is whoever waits for that work. *)

(** The callbacks handed to [gh.get] by the fan-out. *)
Inductive kont :=
| KRepos (ev : emitter) (user : string) (labels : list obj)     (* lines 89-96 *)
| KCheck (ev : emitter) (owner repo : string) (label : list obj) (* lines 117-127 *)
| KWrite.                                                        (* line 163 *)

Inductive proc :=
| Fin (o : outcome)                       (* has called back with [o] *)
| Wait (r : request) (k : kont)           (* [gh.get(r, k)] in flight *)
| SameTime (tasks : list proc)            (* [SameTime(tasks, callback)] *)
| Emitting (ev : emitter) (owner repo : string) (c : obj) (p : proc).
    (* [p] calls back into lines 151-154 *)

Definition labels_endpoint (owner repo : string) : string :=
  ("repos/" ++ owner ++ "/" ++ repo ++ "/labels")%string.

(** *** [GitHubLabeller.addToRepo], one label (lines 146, 159-163) *)

(** The request of line 163, line 160 having returned: with a name that
    is among [labels] and that [encodeURIComponent] refuses, line 163 is
    not reached ([upsert_or_throw] below). *)
Definition upsert (owner repo : string) (label : obj) (labels : list field) : request :=
  let endpoint := labels_endpoint owner repo in
  let endpoint :=
    if includes labels (o_name label)
    then (endpoint ++ "/" ++ encodeURIComponent (to_string (o_name label)))%string
    else endpoint in
  {| endpoint := endpoint; all := false; data := Some label |}.

Definition addToRepo_label (owner repo : string) (label : obj)
    (labels : list field) : proc :=
  Wait (upsert owner repo label labels) KWrite.

(** *** [GitHubLabeller.addToRepo], an array of labels (lines 148-157) *)
Definition addToRepo (ev : emitter) (owner repo : string) (label : list obj)
    (labels : list field) : proc :=
  SameTime (map (fun c =>
                   Emitting ev owner repo c (addToRepo_label owner repo c labels))
                label).

(** *** [GitHubLabeller.checkRepo] (line 117) *)

(** The request of line 117: no options are passed. *)
Definition check_request (owner repo : string) : request :=
  {| endpoint := labels_endpoint owner repo; all := false; data := None |}.

Definition checkRepo (ev : emitter) (owner repo : string) (label : list obj) : proc :=
  Wait (check_request owner repo) (KCheck ev owner repo label).

(** The requests of lines 45 and 89. *)
Definition source_request (source : field) : request :=
  {| endpoint := ("repos/" ++ to_string source ++ "/labels")%string;
     all := true; data := None |}.

Definition repos_request (user : string) : request :=
  {| endpoint := ("users/" ++ user ++ "/repos")%string; all := true; data := None |}.

(** [c.name] of a listed repository, as the endpoint is built from it. *)
Definition repo_name (c : obj) : string := to_string (o_name c).

(** Lines 74-84: [user] and [repo] after the split ([None] is [null]). *)
Definition parse_target (repo : string) : string * field :=
  match split "/" repo with
  | [a; b] => (a, Some b)
  | _ => (repo, None)
  end.

(** Lines 86-97: one repository, or every repository of the user. *)
Definition dispatch (ev : emitter) (user : string) (repo : field)
    (labels : list obj) : proc :=
  if truthy repo then checkRepo ev user (to_string repo) labels
  else Wait (repos_request user) (KRepos ev user labels).

Section Fanout.

Variable gh : client.

(** The body of each callback, run on the client's answer. *)
Definition resume (k : kont) (r : request) : proc :=
  match k with
  | KRepos ev user labels =>
      match listing gh r with
      | inl err => Fin (Fired (Some err) Undefined)
      | inr repos =>
          SameTime (map (fun c => checkRepo ev user (repo_name c) labels) repos)
      end
  | KCheck ev owner repo label =>
      match listing gh r with
      | inl err => Fin (Fired (Some err) Undefined)
      | inr labels => addToRepo ev owner repo label (map o_name labels)
      end
  | KWrite =>
      let (err, data) := writing gh r in Fin (Fired err data)
  end.

(** Requests in flight, in the order they were issued. *)
Fixpoint requests (p : proc) : list request :=
  match p with
  | Fin _ => []
  | Wait r _ => [r]
  | SameTime tasks => flat_map requests tasks
  | Emitting _ _ _ _ p' => requests p'
  end.

Definition leaves (p : proc) : nat := length (requests p).

(** Modelled from the spec: [SameTime] is the [same-time] package, which
    is not in the repository.  Per section 4.4 all tasks are started at
    once, each reports its own result, none is cancelled when another
    fails, and the one callback is invoked once, when every task has
    reported, with what was collected.  [reports] is that collection,
    there once every task of the batch has called [done]; it keeps each
    task's report in the task's place.  Which of several failures the
    package hands to its callback as the error, by the order in which the
    tasks completed (sections 4.4 and 9), is not represented: a property
    that depends on it is not stated over [reports]. *)
Fixpoint reports (tasks : list proc) : option (list outcome) :=
  match tasks with
  | [] => Some []
  | Fin o :: rest =>
      match reports rest with
      | Some os => Some (o :: os)
      | None => None
      end
  | _ => None
  end.

(** Callbacks that can run do run: a batch whose tasks have all reported
    calls its callback, and a label whose write has answered emits
    ["added"] and calls [done(null, data)].  (The callback of lines
    151-154 is only ever handed the answer of one write, [c] being one
    label; nothing is said of it were it handed a batch's report.) *)
Fixpoint settle (p : proc) : proc * list event :=
  match p with
  | Fin o => (Fin o, [])
  | Wait r k => (Wait r k, [])
  | SameTime tasks =>
      let fix each (ts : list proc) : list proc * list event :=
        match ts with
        | [] => ([], [])
        | t :: ts' =>
            let (t', e) := settle t in
            let (ts'', es) := each ts' in
            (t' :: ts'', e ++ es)
        end in
      let (tasks', evs) := each tasks in
      match reports tasks' with
      | Some os => (Fin (Joined os), evs)
      | None => (SameTime tasks', evs)
      end
  | Emitting ev owner repo c p' =>
      let (q, evs) := settle p' in
      match q with
      | Fin (Fired err data) =>
          (Fin (Fired None data), evs ++ [Added ev owner repo c err data])
      | _ => (Emitting ev owner repo c q, evs)
      end
  end.

(** The [n]-th request in flight is answered: its callback runs and may
    issue requests of its own. *)
Fixpoint answer (n : nat) (p : proc) : proc * list request :=
  match p with
  | Fin o => (Fin o, [])
  | Wait r k => let p' := resume k r in (p', requests p')
  | SameTime tasks =>
      let fix among (n : nat) (ts : list proc) : list proc * list request :=
        match ts with
        | [] => ([], [])
        | t :: ts' =>
            if n <? leaves t then
              let (t', rs) := answer n t in (t' :: ts', rs)
            else
              let (ts'', rs) := among (n - leaves t) ts' in (t :: ts'', rs)
        end in
      let (tasks', rs) := among n tasks in (SameTime tasks', rs)
  | Emitting ev owner repo c p' =>
      let (q, rs) := answer n p' in (Emitting ev owner repo c q, rs)
  end.

Definition step (n : nat) (p : proc) : proc * list event :=
  let (p1, rs) := answer n p in
  let (p2, evs) := settle p1 in
  (p2, map Request rs ++ evs).

End Fanout.

(** ** The run: caller's arguments, emitters, the event loop *)

(** The [options] object. *)
Record options := Options {
  repo : string;
  source : field;
  token : field
}.

Definition addr := nat.

Inductive activity :=
| Idle                                               (* nothing in flight *)
| Sourcing (ev : emitter) (labels : addr) (r : request)
    (* the source listing of line 45 in flight; its callback holds
       [labels], [options], [callback] and [ev] *)
| Fanning (p : proc).
    (* the requests of [p] in flight; [p] calls back the caller *)

Record state := State {
  s_arrays : list (list obj);           (* the label arrays, by address *)
  s_options : options;                  (* the one options object *)
  s_emitters : nat;                     (* emitters created so far *)
  s_relays : list (emitter * emitter);  (* ["added"] of the first is re-emitted on the second *)
  s_act : activity;
  s_trace : list event
}.

Inductive result :=
| Returned (ev : emitter)
| Raised (e : error).

Definition read (a : addr) (st : state) : list obj := nth a (s_arrays st) [].

Fixpoint set_nth {A : Type} (n : nat) (x : A) (l : list A) : list A :=
  match n, l with
  | 0, _ :: t => x :: t
  | S n', h :: t => h :: set_nth n' x t
  | _, [] => []
  end.

Definition write (a : addr) (v : list obj) (st : state) : state :=
  State (set_nth a v (s_arrays st)) (s_options st) (s_emitters st)
        (s_relays st) (s_act st) (s_trace st).

Definition alloc (v : list obj) (st : state) : addr * state :=
  (length (s_arrays st),
   State (s_arrays st ++ [v]) (s_options st) (s_emitters st)
         (s_relays st) (s_act st) (s_trace st)).

(** [new EventEmitter()] *)
Definition new_emitter (st : state) : emitter * state :=
  (s_emitters st,
   State (s_arrays st) (s_options st) (S (s_emitters st))
         (s_relays st) (s_act st) (s_trace st)).

(** [delete options.source] *)
Definition delete_source (st : state) : state :=
  State (s_arrays st)
        (Options (repo (s_options st)) None (token (s_options st)))
        (s_emitters st) (s_relays st) (s_act st) (s_trace st).

(** [gl.on("added", ev.emit.bind(ev, "added"))] *)
Definition on_added (gl ev : emitter) (st : state) : state :=
  State (s_arrays st) (s_options st) (s_emitters st)
        ((gl, ev) :: s_relays st) (s_act st) (s_trace st).

Definition become (a : activity) (st : state) : state :=
  State (s_arrays st) (s_options st) (s_emitters st) (s_relays st) a (s_trace st).

Definition log (evs : list event) (st : state) : state :=
  State (s_arrays st) (s_options st) (s_emitters st) (s_relays st) (s_act st)
        (s_trace st ++ evs).

(** An emission as its listeners see it: on the emitter itself, then on
    every emitter it is relayed to.  (Only the emitter of a second call
    is ever relayed, to that of the first, whose listeners are the
    caller's.) *)
Definition relay (rs : list (emitter * emitter)) (e : event) : list event :=
  match e with
  | Added ev owner repo label err data =>
      e :: map (fun r => Added (snd r) owner repo label err data)
               (filter (fun r => fst r =? ev) rs)
  | _ => [e]
  end.

(** Requests go out and stay in flight.  (The work [GitHubLabeller]
    launches always has a request in flight; a batch with no task, which
    only a direct call of [addToRepo] with an empty array makes, is
    settled by the first turn of the loop.) *)
Definition launch (p : proc) (st : state) : state :=
  become (Fanning p) (log (map Request (requests p)) st).

(** *** [GitHubLabeller] (lines 27-100), up to its [return] *)
Definition GitHubLabeller (labels : addr) (st : state) : state * result :=
  let (ev, st) := new_emitter st in
  let options := s_options st in
  if (length (read labels st) =? 0) && negb (truthy (source options)) then
    (log [Callback (Fired None Null)] st, Returned ev)
  else if truthy (source options) then
    let r := source_request (source options) in
    (become (Sourcing ev labels r) (log [Request r] st), Returned ev)
  else
    let (normal, ended) := normalize_from 0 (read labels st) in
    let st := write labels normal st in
    match ended with
    | Threw e => (st, Raised e)
    | Rejected e => (log [Callback (Fired (Some e) Undefined)] st, Returned ev)
    | Normalized =>
        let (user, repo) := parse_target (repo options) in
        (launch (dispatch ev user repo normal) st, Returned ev)
    end.

Section Loop.

Variable gh : client.

(** One turn of the event loop: the [n]-th request in flight is answered
    and its callback runs to the end. *)
Definition turn (n : nat) (st : state) : state :=
  match s_act st with
  | Idle => st
  | Sourcing ev labels r =>
      let st := become Idle st in
      match listing gh r with
      | inl err => log [Callback (Fired (Some err) Undefined)] st
      | inr lbls =>
          let st := delete_source st in
          let (labels', st) := alloc (read labels st ++ lbls) st in
          let (st, res) := GitHubLabeller labels' st in
          match res with
          | Returned gl => on_added gl ev st
          | Raised e => log [Uncaught e] st
          end
      end
  | Fanning p =>
      let (p', evs) := step gh (n mod leaves p) p in
      let st := log (flat_map (relay (s_relays st)) evs) st in
      match p' with
      | Fin o => become Idle (log [Callback o] st)
      | _ => become (Fanning p') st
      end
  end.

(** The loop under a schedule: which request in flight is answered next. *)
Fixpoint exec (schedule : list nat) (st : state) : state :=
  match schedule with
  | [] => st
  | n :: rest => exec rest (turn n st)
  end.

End Loop.

(** The state a call starts from: the caller's array at address 0. *)
Definition initial (labels : list obj) (o : options) : state :=
  State [labels] o 0 [] Idle [].

(** A whole run: the call, then the loop. *)
Definition run (gh : client) (labels : list obj) (o : options)
    (schedule : list nat) : state * result :=
  let (st, res) := GitHubLabeller 0 (initial labels o) in
  (exec gh schedule st, res).

(** ** What outstanding work amounts to

    [eval gh p n o E]: once its [n] requests (those in flight and those
    their callbacks will issue) have been answered, [p] calls back with
    [o], having issued the requests and made the emissions [E].  The
    relation fixes no order between tasks of a batch; [E] lists them task
    by task. *)

Section Denotation.

Variable gh : client.

Inductive eval : proc -> nat -> outcome -> list event -> Prop :=
| eval_Fin o :
    eval (Fin o) 0 o []
| eval_Wait r k n o E :
    eval (resume gh k r) n o E ->
    eval (Wait r k) (S n) o (map Request (requests (resume gh k r)) ++ E)
| eval_SameTime tasks n os E :
    evals tasks n os E ->
    eval (SameTime tasks) n (Joined os) E
| eval_Emitting ev owner repo c p n err data E :
    eval p n (Fired err data) E ->
    eval (Emitting ev owner repo c p) n (Fired None data)
         (E ++ [Added ev owner repo c err data])
with evals : list proc -> nat -> list outcome -> list event -> Prop :=
| evals_nil :
    evals [] 0 [] []
| evals_cons t ts n m o os E F :
    eval t n o E -> evals ts m os F ->
    evals (t :: ts) (n + m) (o :: os) (E ++ F).

(** [settle] and [answer] on the tasks of a batch. *)
Fixpoint settle_each (ts : list proc) : list proc * list event :=
  match ts with
  | [] => ([], [])
  | t :: ts' =>
      let (t', e) := settle t in
      let (ts'', es) := settle_each ts' in
      (t' :: ts'', e ++ es)
  end.

Fixpoint answer_among (n : nat) (ts : list proc) : list proc * list request :=
  match ts with
  | [] => ([], [])
  | t :: ts' =>
      if n <? leaves t then
        let (t', rs) := answer gh n t in (t' :: ts', rs)
      else
        let (ts'', rs) := answer_among (n - leaves t) ts' in (t :: ts'', rs)
  end.

(** *** What the program's calls amount to *)

(** The answer to the write of one label, as its task reports it. *)
Definition written (owner repo : string) (labels : list field) (c : obj) : outcome :=
  Fired None (snd (writing gh (upsert owner repo c labels))).

(** The emission that goes with it. *)
Definition added (ev : emitter) (owner repo : string) (labels : list field)
    (c : obj) : event :=
  let (err, data) := writing gh (upsert owner repo c labels) in
  Added ev owner repo c err data.

(** One repository: how many requests, what is reported, what is seen. *)
Definition repo_requests (owner repo : string) (label : list obj) : nat :=
  match listing gh (check_request owner repo) with
  | inl _ => 1
  | inr _ => S (length label)
  end.

Definition repo_outcome (owner repo : string) (label : list obj) : outcome :=
  match listing gh (check_request owner repo) with
  | inl err => Fired (Some err) Undefined
  | inr labels => Joined (map (written owner repo (map o_name labels)) label)
  end.

Definition repo_events (ev : emitter) (owner repo : string) (label : list obj)
    : list event :=
  match listing gh (check_request owner repo) with
  | inl _ => []
  | inr labels =>
      map (fun c => Request (upsert owner repo c (map o_name labels))) label
      ++ map (added ev owner repo (map o_name labels)) label
  end.

(** Every repository of a listing. *)
Definition repos_requests (user : string) (label repos : list obj) : nat :=
  list_sum (map (fun c => repo_requests user (repo_name c) label) repos).

Definition repos_outcome (user : string) (label repos : list obj) : outcome :=
  Joined (map (fun c => repo_outcome user (repo_name c) label) repos).

Definition repos_events (ev : emitter) (user : string) (label repos : list obj)
    : list event :=
  map (fun c => Request (check_request user (repo_name c))) repos
  ++ flat_map (fun c => repo_events ev user (repo_name c) label) repos.

End Denotation.

(** ** Vocabulary of the statements *)

(** A color that still begins with ["#"]. *)
Definition hashed (color : string) : bool :=
  match color with
  | String "#" _ => true
  | _ => false
  end.

(** A label the loop of lines 56-72 passes. *)
Definition valid (cLabel : obj) : bool :=
  match normalize cLabel with
  | Some c => truthy (o_name c) && truthy (o_color c)
  | None => false
  end.

(** The [{name, color}] object of a label that has a color. *)
Definition normal (cLabel : obj) : obj :=
  {| o_name := or_else (o_name cLabel) (o_label cLabel);
     o_label := None;
     o_color := option_map strip_hash (o_color cLabel);
     o_rest := [] |}.

(** Write requests in a trace: those that carry [data]. *)
Definition is_write (e : event) : bool :=
  match e with
  | Request r => match data r with Some _ => true | None => false end
  | _ => false
  end.


(** ["added"] emissions on one emitter. *)
Definition is_added_on (ev : emitter) (e : event) : bool :=
  match e with
  | Added ev' _ _ _ _ _ => ev' =? ev
  | _ => false
  end.

Definition is_callback (e : event) : bool :=
  match e with
  | Callback _ => true
  | _ => false
  end.

Definition count (f : event -> bool) (tr : list event) : nat :=
  length (filter f tr).


Scheme eval_ind2 := Minimality for eval Sort Prop
  with evals_ind2 := Minimality for evals Sort Prop.
Combined Scheme eval_evals_ind from eval_ind2, evals_ind2.

(** The message of the loop for a label that has a color and fails. *)
Definition complaint (bad : obj) (i : nat) : error :=
  Error ((if truthy (o_name (normal bad))
          then "Missing color for label: "
          else "Missing name for label: ") ++ decimal i).

(** Once the source listing [lbls] is in: the state the second call
    starts from, and how the first call's callback ends. *)
Definition merged_state (labels lbls : list obj) (o : options) : state :=
  State [labels; labels ++ lbls] (Options (repo o) None (token o)) 1 []
        Idle [Request (source_request (source o))].

Definition rerun (labels lbls : list obj) (o : options) : state :=
  match GitHubLabeller 1 (merged_state labels lbls o) with
  | (st, Returned gl) => on_added gl 0 st
  | (st, Raised e) => log [Uncaught e] st
  end.

(** A state whose source listing is still in flight. *)
Definition sourcing (st : state) : bool :=
  match s_act st with
  | Sourcing _ _ _ => true
  | _ => false
  end.

(** ** Vocabulary of the further properties *)

Section Whole.

Variable gh : client.

(** What lines 86-97 amount to, for either kind of target. *)
Definition dispatch_requests (user : string) (repo : field) (labels : list obj) : nat :=
  if truthy repo then repo_requests gh user (to_string repo) labels
  else match listing gh (repos_request user) with
       | inl _ => 1
       | inr repos => S (repos_requests gh user labels repos)
       end.

Definition dispatch_outcome (user : string) (repo : field) (labels : list obj)
    : outcome :=
  if truthy repo then repo_outcome gh user (to_string repo) labels
  else match listing gh (repos_request user) with
       | inl err => Fired (Some err) Undefined
       | inr repos => repos_outcome gh user labels repos
       end.

Definition dispatch_events (ev : emitter) (user : string) (repo : field)
    (labels : list obj) : list event :=
  if truthy repo then repo_events gh ev user (to_string repo) labels
  else match listing gh (repos_request user) with
       | inl _ => []
       | inr repos => repos_events gh ev user labels repos
       end.

(** Turns the loop needs after a call that finds no source. *)
Definition call_turns (labels : list obj) (o : options) : nat :=
  match labels, normalize_from 0 labels with
  | _ :: _, (normal, Normalized) =>
      dispatch_requests (fst (parse_target (repo o))) (snd (parse_target (repo o)))
                        normal
  | _, _ => 0
  end.

(** Turns the loop needs for a whole run. *)
Definition turns (labels : list obj) (o : options) : nat :=
  if truthy (source o) then
    match listing gh (source_request (source o)) with
    | inl _ => 1
    | inr lbls => S (call_turns (labels ++ lbls) o)
    end
  else call_turns labels o.

End Whole.

Definition is_uncaught (e : event) : bool :=
  match e with
  | Uncaught _ => true
  | _ => false
  end.

(** A [{name, color}] object with both properties non-empty. *)
Definition well_formed (c : obj) : bool :=
  truthy (o_name c) && truthy (o_color c)
  && match o_label c with None => true | Some _ => false end
  && match o_rest c with [] => true | _ => false end.

(** A write whose payload is not such an object. *)
Definition is_bad_write (e : event) : bool :=
  match e with
  | Request r =>
      match data r with
      | Some c => negb (well_formed c) || all r
      | None => false
      end
  | _ => false
  end.

(** [segments.join("/")] *)
Fixpoint join (segments : list string) : string :=
  match segments with
  | [] => ""
  | [s] => s
  | s :: rest => s ++ "/" ++ join rest
  end.

Fixpoint has_slash (s : string) : bool :=
  match s with
  | EmptyString => false
  | String c rest => Ascii.eqb c "/" || has_slash rest
  end.

(** An event that does not end a run: a request without [data], a write
    of a well-formed label that does not ask for all pages, or an
    emission. *)
Definition benign (e : event) : bool :=
  match e with
  | Request r =>
      match data r with
      | None => true
      | Some c => well_formed c && negb (all r)
      end
  | Added _ _ _ _ _ _ => true
  | _ => false
  end.

(** The event that ends a run. *)
Definition final (e : event) : bool := is_callback e || is_uncaught e.

Definition idle (st : state) : bool :=
  match s_act st with
  | Idle => true
  | _ => false
  end.

(** A trace that continues [base] with benign events and then, at most,
    one final event, nothing being in flight once that has happened. *)
Definition shaped (base : list event) (st : state) : Prop :=
  exists T tail,
    s_trace st = base ++ T ++ tail
    /\ forallb benign T = true
    /\ (tail = [] \/ exists x, tail = [x] /\ final x = true /\ idle st = true).

(** An emission made on the emitter [ev], or no emission at all. *)
Definition on_emitter (ev : emitter) (e : event) : bool :=
  match e with
  | Added ev' _ _ _ _ _ => ev' =? ev
  | _ => true
  end.

(** A loop that, given [enough] turns, ends in one state whatever the
    schedule, up to the order of the events [E] seen on the way: every
    write among them announced once on emitter 0, one final event last. *)
Definition completes (enough : nat) (loop : list nat -> state)
    (before : list event) : Prop :=
  exists base E post,
    (forall sched,
       enough <= length sched ->
       exists T, Permutation T E /\ loop sched = log (T ++ post) base)
    /\ s_act base = Idle
    /\ (exists pre,
          s_trace base = before ++ pre /\ forallb benign pre = true
          /\ count is_write pre = 0 /\ count (is_added_on 0) pre = 0)
    /\ forallb benign E = true
    /\ count (is_added_on 0) E = count is_write E
    /\ exists x, post = [x] /\ final x = true.




(** ** Names that cannot be encoded (line 160)

    Strings stand for JavaScript strings through their generalized UTF-8
    bytes, in which a surrogate that has no partner, the one thing UTF-8
    proper cannot hold, is the three bytes [ED], [A0]..[BF], [80]..[BF].
    On a string that holds one the builtin [encodeURIComponent] throws a
    [URIError] instead of returning; on every other string it returns
    what [JS.encodeURIComponent] computes. *)

Fixpoint unpaired_surrogate (s : string) : bool :=
  match s with
  | EmptyString => false
  | String a rest =>
      match rest with
      | EmptyString => false
      | String b _ =>
          ((nat_of_ascii a =? 237) && (160 <=? nat_of_ascii b)
           && (nat_of_ascii b <=? 191))
          || unpaired_surrogate rest
      end
  end.

(** [encodeURIComponent(s)]: [None] when it throws [URIError]. *)
Definition encodeURIComponent_or_throw (s : string) : option string :=
  if unpaired_surrogate s then None else Some (encodeURIComponent s).


(** A label whose name, as the loop of lines 56-72 takes it, can be
    encoded. *)
Definition encodable (cLabel : obj) : bool :=
  negb (unpaired_surrogate (to_string (o_name (normal cLabel)))).


(** ** Sample inputs *)

Module Sample.

Definition label (name color : string) : obj := Obj (Some name) None (Some color) [].

Definition named (name : string) : obj := Obj (Some name) None None [].

(** A remote with a source repository [src/labs], a repository
    [acme/widgets] that already has a label [bug], and a user [acme] with
    three repositories, the second of which cannot be read; writing the
    label [wontfix] is refused. *)
Definition remote : client :=
  Client
    (fun r =>
       if String.eqb (endpoint r) "repos/src/labs/labels"
       then inr [label "bug" "00f"; label "feat" "0f0"]
       else if String.eqb (endpoint r) "repos/acme/widgets/labels"
       then inr [label "bug" "123456"]
       else if String.eqb (endpoint r) "users/acme/repos"
       then inr [named "A"; named "B"; named "C"]
       else if String.eqb (endpoint r) "repos/acme/B/labels"
       then inl (Remote "500")
       else inr [])
    (fun r =>
       match data r with
       | Some o =>
           if field_eqb (o_name o) (Some "wontfix")
           then (Some (Remote "422"), Undefined)
           else (None, Body o)
       | None => (Some (Remote "400"), Undefined)
       end).

End Sample.

(** A repository that already has the labels [help wanted] and [ui/ux],
    and a name that is one unpaired surrogate, U+D800. *)
Module Tracker.

Definition remote : client :=
  Client
    (fun r => inr [Sample.label "help wanted" "fff"; Sample.label "ui/ux" "0f0"])
    (fun r => (None, Null)).

Definition U_D800 : string :=
  String (ascii_of_nat 237) (String (ascii_of_nat 160)
    (String (ascii_of_nat 128) EmptyString)).

End Tracker.

(** * Properties *)

(** ** Any schedule leads to the same report *)

Section Confluence.

Variable gh : client.

Lemma settle_SameTime tasks :
  settle (SameTime tasks) =
  let (tasks', evs) := settle_each tasks in
  match reports tasks' with
  | Some os => (Fin (Joined os), evs)
  | None => (SameTime tasks', evs)
  end.
Proof.
  cbn [settle].
  replace ((fix each (ts : list proc) : list proc * list event :=
              match ts with
              | [] => ([], [])
              | t :: ts' =>
                  let (t', e) := settle t in
                  let (ts'', es) := each ts' in (t' :: ts'', e ++ es)
              end) tasks) with (settle_each tasks); [reflexivity|].
  induction tasks as [|t ts IH]; cbn; [reflexivity|].
  rewrite IH. reflexivity.
Qed.

Lemma answer_SameTime n tasks :
  answer gh n (SameTime tasks) =
  let (tasks', rs) := answer_among gh n tasks in (SameTime tasks', rs).
Proof.
  cbn [answer].
  replace ((fix among (n0 : nat) (ts : list proc) {struct ts} :
               list proc * list request :=
              match ts with
              | [] => ([], [])
              | t :: ts' =>
                  if n0 <? leaves t
                  then let (t', rs) := answer gh n0 t in (t' :: ts', rs)
                  else let (ts'', rs) := among (n0 - leaves t) ts' in (t :: ts'', rs)
              end) n tasks) with (answer_among gh n tasks); [reflexivity|].
  revert n. induction tasks as [|t ts IH]; intros n; cbn; [reflexivity|].
  rewrite IH. reflexivity.
Qed.

(** A batch whose tasks have all reported amounts to those reports. *)
Lemma reports_evals ts os :
  reports ts = Some os ->
  forall n os' E, evals gh ts n os' E -> n = 0 /\ os' = os /\ E = [].
Proof.
  revert os. induction ts as [|t ts IH]; intros os H n os' E Hev.
  - cbn in H. injection H as <-. inversion Hev; subst. auto.
  - cbn in H. destruct t as [o| | |]; try discriminate.
    destruct (reports ts) as [os0|] eqn:R; [|discriminate].
    injection H as <-.
    inversion Hev; subst.
    match goal with He : eval _ (Fin _) _ _ _ |- _ => inversion He; subst end.
    match goal with He : evals _ ts _ _ _ |- _ =>
      destruct (IH _ eq_refl _ _ _ He) as (-> & -> & ->) end.
    auto.
Qed.

Lemma settle_eval_both :
  (forall p n o E, eval gh p n o E ->
     exists E', eval gh (fst (settle p)) n o E'
                /\ Permutation E (snd (settle p) ++ E'))
  /\
  (forall ts n os E, evals gh ts n os E ->
     exists E', evals gh (fst (settle_each ts)) n os E'
                /\ Permutation E (snd (settle_each ts) ++ E')).
Proof.
  apply eval_evals_ind.
  - intros o. exists []. split; [constructor|reflexivity].
  - intros r k n o E He _. eexists. split; [cbn; constructor; eassumption|].
    cbn. reflexivity.
  - intros tasks n os E _ (E' & He & Hp).
    rewrite settle_SameTime.
    destruct (settle_each tasks) as [tasks' evs] eqn:S. cbn [fst snd] in *.
    destruct (reports tasks') as [os'|] eqn:R.
    + destruct (reports_evals _ _ R _ _ _ He) as (-> & -> & ->).
      exists []. split; [constructor|exact Hp].
    + exists E'. split; [constructor; exact He|exact Hp].
  - intros ev owner repo c p n err data E _ (E' & He & Hp).
    cbn [settle]. destruct (settle p) as [q evs] eqn:S. cbn [fst snd] in *.
    destruct q as [[err' data'|rs]| | |].
    + inversion He; subst. exists []. split; [constructor|].
      cbn [fst snd]. rewrite app_nil_r in *. apply Permutation_app_tail. exact Hp.
    + inversion He.
    + exists (E' ++ [Added ev owner repo c err data]). split; [constructor; exact He|].
      cbn [snd]. rewrite app_assoc. apply Permutation_app_tail. exact Hp.
    + exists (E' ++ [Added ev owner repo c err data]). split; [constructor; exact He|].
      cbn [snd]. rewrite app_assoc. apply Permutation_app_tail. exact Hp.
    + exists (E' ++ [Added ev owner repo c err data]). split; [constructor; exact He|].
      cbn [snd]. rewrite app_assoc. apply Permutation_app_tail. exact Hp.
  - exists []. split; [constructor|reflexivity].
  - intros t ts n m o os E F _ (E' & He & Hp) _ (F' & Hf & Hq).
    cbn [settle_each]. destruct (settle t) as [t' e]. destruct (settle_each ts) as [ts' es].
    cbn [fst snd] in *. exists (E' ++ F'). split; [constructor; assumption|].
    rewrite Hp, Hq. rewrite <- !app_assoc. apply Permutation_app_head.
    rewrite !app_assoc. apply Permutation_app_tail. apply Permutation_app_comm.
Qed.


Lemma leaves_cons t ts :
  length (flat_map requests (t :: ts)) = leaves t + length (flat_map requests ts).
Proof. cbn [flat_map]. rewrite length_app. reflexivity. Qed.

Lemma answer_eval_both :
  (forall p n o E, eval gh p n o E ->
     forall i, i < leaves p ->
     exists n' E', n = S n' /\ eval gh (fst (answer gh i p)) n' o E'
                   /\ Permutation E (map Request (snd (answer gh i p)) ++ E'))
  /\
  (forall ts n os E, evals gh ts n os E ->
     forall i, i < length (flat_map requests ts) ->
     exists n' E', n = S n' /\ evals gh (fst (answer_among gh i ts)) n' os E'
                   /\ Permutation E (map Request (snd (answer_among gh i ts)) ++ E')).
Proof.
  apply eval_evals_ind.
  - intros o i Hi. cbn in Hi. lia.
  - intros r k n o E He _ i _. exists n, E. cbn. auto.
  - intros tasks n os E _ IH i Hi.
    destruct (IH i Hi) as (n' & E' & -> & He & Hp).
    rewrite answer_SameTime. destruct (answer_among gh i tasks) as [tasks' rs].
    cbn [fst snd] in *. exists n', E'. repeat split; [constructor; exact He|exact Hp].
  - intros ev owner repo c p n err data E _ IH i Hi.
    destruct (IH i Hi) as (n' & E' & -> & He & Hp).
    cbn [answer]. destruct (answer gh i p) as [q rs]. cbn [fst snd] in *.
    exists n', (E' ++ [Added ev owner repo c err data]).
    repeat split; [constructor; exact He|].
    rewrite app_assoc. apply Permutation_app_tail. exact Hp.
  - intros i Hi. cbn in Hi. lia.
  - intros t ts n m o os E F He IHt Hes IHts i Hi.
    rewrite leaves_cons in Hi. cbn [answer_among].
    destruct (i <? leaves t) eqn:Lt.
    + apply Nat.ltb_lt in Lt.
      destruct (IHt i Lt) as (n' & E' & -> & He' & Hp).
      destruct (answer gh i t) as [t' rs]. cbn [fst snd] in *.
      exists (n' + m), (E' ++ F). repeat split; [constructor; assumption|].
      rewrite app_assoc. apply Permutation_app_tail. exact Hp.
    + apply Nat.ltb_ge in Lt.
      destruct (IHts (i - leaves t)) as (m' & F' & -> & Hes' & Hp); [lia|].
      destruct (answer_among gh (i - leaves t) ts) as [ts' rs]. cbn [fst snd] in *.
      exists (n + m'), (E ++ F'). repeat split; [lia|constructor; assumption|].
      rewrite Hp. rewrite !app_assoc. apply Permutation_app_tail.
      apply Permutation_app_comm.
Qed.

Lemma reports_leaves ts os :
  reports ts = Some os -> flat_map requests ts = [].
Proof.
  revert os. induction ts as [|t ts IH]; intros os H; [reflexivity|].
  cbn in H. destruct t; try discriminate.
  destruct (reports ts) eqn:R; [|discriminate]. cbn. eauto.
Qed.

Lemma settle_leaves_both :
  (forall p n o E, eval gh p n o E ->
     requests (fst (settle p)) = requests p)
  /\
  (forall ts n os E, evals gh ts n os E ->
     flat_map requests (fst (settle_each ts)) = flat_map requests ts).
Proof.
  apply eval_evals_ind.
  - reflexivity.
  - reflexivity.
  - intros tasks n os E _ IH. rewrite settle_SameTime.
    destruct (settle_each tasks) as [tasks' evs]. cbn [fst] in *.
    destruct (reports tasks') eqn:R; cbn [fst requests]; [|exact IH].
    rewrite <- IH. symmetry. eapply reports_leaves; eassumption.
  - intros ev owner repo c p n err data E _ IH. cbn [settle].
    destruct (settle p) as [q evs]. cbn [fst] in *.
    destruct q as [[?|?]| | |]; cbn [fst requests] in *; exact IH.
  - reflexivity.
  - intros t ts n m o os E F _ IHt _ IHts. cbn [settle_each].
    destruct (settle t) as [t' e]. destruct (settle_each ts) as [ts' es].
    cbn [fst flat_map] in *. congruence.
Qed.

Lemma eval_leaves_both :
  (forall p n o E, eval gh p n o E -> leaves p <= n)
  /\
  (forall ts n os E, evals gh ts n os E -> length (flat_map requests ts) <= n).
Proof.
  apply eval_evals_ind; intros; try rewrite leaves_cons; unfold leaves in *; cbn in *; lia.
Qed.

(** Work with nothing in flight has called back once it has settled. *)
Lemma settle_done_both :
  (forall p n o E, eval gh p n o E -> leaves p = 0 -> fst (settle p) = Fin o)
  /\
  (forall ts n os E, evals gh ts n os E -> length (flat_map requests ts) = 0 ->
     reports (fst (settle_each ts)) = Some os).
Proof.
  apply eval_evals_ind.
  - reflexivity.
  - intros. discriminate.
  - intros tasks n os E _ IH H0. rewrite settle_SameTime.
    destruct (settle_each tasks) as [tasks' evs]. cbn [fst] in *.
    rewrite (IH H0). reflexivity.
  - intros ev owner repo c p n err data E _ IH H0. cbn [settle].
    destruct (settle p) as [q evs]. cbn [fst] in *. rewrite (IH H0). reflexivity.
  - reflexivity.
  - intros t ts n m o os E F _ IHt _ IHts H0. rewrite leaves_cons in H0.
    cbn [settle_each]. destruct (settle t) as [t' e]. destruct (settle_each ts) as [ts' es].
    cbn [fst] in *. rewrite (IHt ltac:(lia)). cbn [reports]. rewrite (IHts ltac:(lia)).
    reflexivity.
Qed.

(** One answer, whichever request it is for, leaves what the work amounts
    to unchanged and accounts for the events it shows. *)
Lemma step_eval p n o E i :
  eval gh p n o E -> i < leaves p ->
  exists n' E', n = S n'
    /\ eval gh (fst (step gh i p)) n' o E'
    /\ Permutation E (snd (step gh i p) ++ E')
    /\ (leaves (fst (step gh i p)) = 0 -> fst (step gh i p) = Fin o).
Proof.
  intros He Hi.
  destruct (proj1 answer_eval_both _ _ _ _ He i Hi) as (n' & E1 & -> & He1 & Hp1).
  destruct (proj1 settle_eval_both _ _ _ _ He1) as (E2 & He2 & Hp2).
  unfold step. destruct (answer gh i p) as [p1 rs]. cbn [fst snd] in *.
  pose proof (proj1 settle_leaves_both _ _ _ _ He1) as Hl.
  pose proof (proj1 settle_done_both _ _ _ _ He1) as Hd.
  destruct (settle p1) as [p2 evs]. cbn [fst snd] in *.
  exists n', E2. repeat split; [exact He2| |].
  - rewrite Hp1, Hp2. rewrite app_assoc. reflexivity.
  - intros H0. apply Hd. unfold leaves in *. rewrite <- Hl. exact H0.
Qed.


Lemma exec_Idle sched st : s_act st = Idle -> exec gh sched st = st.
Proof.
  revert st. induction sched as [|k rest IH]; intros st H; [reflexivity|].
  cbn [exec]. unfold turn. rewrite H. apply IH. exact H.
Qed.

(** The fan-out under any schedule: when as many turns have run as the
    work has requests, the caller has been called back once, last, with
    the outcome the work amounts to; what was seen before is a
    rearrangement of the events the work amounts to, each emission
    followed by its relays. *)
Lemma exec_fanning n :
  forall p o E st sched,
    eval gh p n o E -> 0 < leaves p -> s_act st = Fanning p ->
    n <= length sched ->
    exists T,
      Permutation T (flat_map (relay (s_relays st)) E)
      /\ exec gh sched st = become Idle (log (T ++ [Callback o]) st).
Proof.
  induction n as [|n IH]; intros p o E st sched He Hl Hact Hlen.
  - pose proof (proj1 eval_leaves_both _ _ _ _ He). lia.
  - destruct sched as [|k rest]; [cbn in Hlen; lia|]. cbn [length] in Hlen.
    assert (Hi : k mod leaves p < leaves p) by (apply Nat.mod_upper_bound; lia).
    destruct (step_eval _ _ _ _ _ He Hi) as (n' & E' & Hn & He' & Hp & Hd).
    injection Hn as <-.
    cbn [exec]. unfold turn at 1. rewrite Hact.
    destruct (step gh (k mod leaves p) p) as [p' evs]. cbn [fst snd] in *.
    destruct (Nat.eq_dec (leaves p') 0) as [H0|H0].
    + rewrite (Hd H0) in *. inversion He'; subst.
      exists (flat_map (relay (s_relays st)) evs). split.
      * rewrite Hp, app_nil_r. reflexivity.
      * rewrite exec_Idle by reflexivity.
        unfold become, log. cbn. rewrite <- app_assoc. reflexivity.
    + set (st1 := log (flat_map (relay (s_relays st)) evs) st).
      assert (Hnext : exec gh rest
                (match p' with
                 | Fin o0 => become Idle (log [Callback o0] st1)
                 | _ => become (Fanning p') st1
                 end) = exec gh rest (become (Fanning p') st1)).
      { destruct p'; try reflexivity. exfalso. apply H0. reflexivity. }
      rewrite Hnext.
      destruct (IH p' o E' (become (Fanning p') st1) rest He') as (T & HT & Hex);
        [lia|reflexivity|lia|].
      exists (flat_map (relay (s_relays st)) evs ++ T). split.
      * rewrite Hp, flat_map_app. apply Permutation_app_head. exact HT.
      * rewrite Hex. unfold become, log, st1. cbn. rewrite !app_assoc. reflexivity.
Qed.

End Confluence.

(** ** What the calls of the program amount to *)

Section Program.

Variable gh : client.

Lemma eval_Wait_eq r k n o E E0 :
  eval gh (resume gh k r) n o E0 ->
  E = map Request (requests (resume gh k r)) ++ E0 ->
  eval gh (Wait r k) (S n) o E.
Proof. intros H ->. constructor. exact H. Qed.

Lemma eval_addToRepo_label owner repo c labels :
  eval gh (addToRepo_label owner repo c labels) 1
       (Fired (fst (writing gh (upsert owner repo c labels)))
              (snd (writing gh (upsert owner repo c labels)))) [].
Proof.
  unfold addToRepo_label. eapply eval_Wait_eq.
  - cbn [resume].
    destruct (writing gh (upsert owner repo c labels)) as [err d]. constructor.
  - cbn [resume]. destruct (writing gh _); reflexivity.
Qed.

Lemma evals_addToRepo ev owner repo labels cs :
  evals gh
    (map (fun c => Emitting ev owner repo c (addToRepo_label owner repo c labels)) cs)
    (length cs)
    (map (written gh owner repo labels) cs)
    (map (added gh ev owner repo labels) cs).
Proof.
  induction cs as [|c cs IH]; cbn [map length]; [constructor|].
  change (S (length cs)) with (1 + length cs).
  change (added gh ev owner repo labels c :: map (added gh ev owner repo labels) cs)
    with ([added gh ev owner repo labels c] ++ map (added gh ev owner repo labels) cs).
  constructor; [|exact IH].
  unfold written, added.
  pose proof (eval_addToRepo_label owner repo c labels) as H.
  destruct (writing gh (upsert owner repo c labels)) as [err d]. cbn [fst snd] in *.
  change [Added ev owner repo c err d] with ([] ++ [Added ev owner repo c err d]).
  constructor. exact H.
Qed.

Lemma eval_addToRepo ev owner repo labels cs :
  eval gh (addToRepo ev owner repo cs labels) (length cs)
       (Joined (map (written gh owner repo labels) cs))
       (map (added gh ev owner repo labels) cs).
Proof. unfold addToRepo. constructor. apply evals_addToRepo. Qed.

Lemma requests_addToRepo ev owner repo labels cs :
  requests (addToRepo ev owner repo cs labels)
  = map (fun c => upsert owner repo c labels) cs.
Proof.
  unfold addToRepo. cbn [requests].
  induction cs as [|c cs IH]; cbn; [reflexivity|]. f_equal. exact IH.
Qed.

Lemma eval_checkRepo ev owner repo cs :
  eval gh (checkRepo ev owner repo cs) (repo_requests gh owner repo cs)
       (repo_outcome gh owner repo cs) (repo_events gh ev owner repo cs).
Proof.
  unfold checkRepo, repo_requests, repo_outcome, repo_events.
  fold (check_request owner repo).
  destruct (listing gh (check_request owner repo)) as [err|labels] eqn:L.
  - eapply eval_Wait_eq; cbn [resume]; rewrite L; [constructor|reflexivity].
  - eapply eval_Wait_eq; cbn [resume]; rewrite L; [apply eval_addToRepo|].
    rewrite requests_addToRepo, map_map. reflexivity.
Qed.

Lemma evals_checkRepo ev user labels repos :
  evals gh (map (fun c => checkRepo ev user (repo_name c) labels) repos)
    (list_sum (map (fun c => repo_requests gh user (repo_name c) labels) repos))
    (map (fun c => repo_outcome gh user (repo_name c) labels) repos)
    (flat_map (fun c => repo_events gh ev user (repo_name c) labels) repos).
Proof.
  induction repos as [|c repos IH]; cbn [map list_sum flat_map]; [constructor|].
  constructor; [apply eval_checkRepo|exact IH].
Qed.

Lemma requests_checkRepos ev user labels repos :
  flat_map requests (map (fun c => checkRepo ev user (repo_name c) labels) repos)
  = map (fun c => check_request user (repo_name c)) repos.
Proof. induction repos as [|c repos IH]; cbn; [reflexivity|]. f_equal. exact IH. Qed.

Lemma eval_listed ev user labels repos :
  listing gh (repos_request user) = inr repos ->
  eval gh (Wait (repos_request user) (KRepos ev user labels))
    (S (repos_requests gh user labels repos))
    (repos_outcome gh user labels repos)
    (repos_events gh ev user labels repos).
Proof.
  intros L. eapply eval_Wait_eq; cbn [resume]; rewrite L.
  - constructor. apply evals_checkRepo.
  - cbn [requests]. rewrite requests_checkRepos, map_map. reflexivity.
Qed.

Lemma eval_not_listed ev user labels err :
  listing gh (repos_request user) = inl err ->
  eval gh (Wait (repos_request user) (KRepos ev user labels)) 1
    (Fired (Some err) Undefined) [].
Proof.
  intros L. eapply eval_Wait_eq; cbn [resume]; rewrite L; [constructor|reflexivity].
Qed.

(** *** From the call to the end of the loop *)

Lemma exec_launch p n o E st sched :
  eval gh p n o E -> 0 < leaves p -> n <= length sched ->
  exists T,
    Permutation T (flat_map (relay (s_relays st)) E)
    /\ exec gh sched (launch p st)
       = become Idle (log (map Request (requests p) ++ T ++ [Callback o]) st).
Proof.
  intros He Hl Hn.
  destruct (exec_fanning gh n p o E (launch p st) sched He Hl eq_refl Hn) as (T & HT & Hx).
  exists T. split; [exact HT|]. rewrite Hx.
  unfold launch, become, log. cbn. rewrite <- app_assoc. reflexivity.
Qed.

Lemma relay_none E : flat_map (relay []) E = E.
Proof.
  induction E as [|e E IH]; [reflexivity|]. cbn [flat_map]. rewrite IH.
  destruct e; reflexivity.
Qed.

Lemma normalize_from_valid i labels :
  forallb valid labels = true ->
  normalize_from i labels = (map normal labels, Normalized).
Proof.
  revert i. induction labels as [|c labels IH]; intros i H; [reflexivity|].
  cbn [forallb] in H. apply andb_true_iff in H as [Hc Hl].
  cbn [normalize_from map]. unfold valid, normalize in *.
  destruct (o_color c) as [color|] eqn:C; [|discriminate].
  apply andb_true_iff in Hc as [Hn Hcol].
  cbn [o_name o_color] in *. rewrite Hn, Hcol. cbn [negb].
  rewrite (IH (S i) Hl). unfold normal. rewrite C. reflexivity.
Qed.

(** The call on an array that passes the loop, with no source. *)
Lemma GitHubLabeller_dispatches a st labels' :
  truthy (source (s_options st)) = false ->
  read a st <> [] ->
  normalize_from 0 (read a st) = (labels', Normalized) ->
  GitHubLabeller a st
  = (launch (dispatch (s_emitters st)
                      (fst (parse_target (repo (s_options st))))
                      (snd (parse_target (repo (s_options st)))) labels')
            (write a labels' (snd (new_emitter st))),
     Returned (s_emitters st)).
Proof.
  intros Hs Hne Hn. unfold GitHubLabeller.
  cbn [new_emitter s_options]. change (read a (snd (new_emitter st))) with (read a st).
  unfold new_emitter at 1. cbn [s_options].
  change (read a (State (s_arrays st) (s_options st) (S (s_emitters st))
           (s_relays st) (s_act st) (s_trace st))) with (read a st).
  rewrite Hs, Hn. cbn [negb].
  destruct (read a st) as [|c l] eqn:R; [congruence|]. cbn [length Nat.eqb andb].
  destruct (parse_target (repo (s_options st))) as [user r]. reflexivity.
Qed.

Lemma leaves_dispatch ev user r labels : leaves (dispatch ev user r labels) = 1.
Proof. unfold dispatch. destruct (truthy r); reflexivity. Qed.

End Program.

(** ** The no-op request *)

(** C7. With an empty label array and no source the caller is called back
    once with [(null, null)], nothing is requested, and the emitter is
    returned; the turns of the loop find nothing to do. *)
Theorem noop_calls_back_null gh o schedule :
  truthy (source o) = false ->
  run gh [] o schedule
  = (State [[]] o 1 [] Idle [Callback (Fired None Null)], Returned 0).
Proof.
  intros H. unfold run, GitHubLabeller. cbn. rewrite H. cbn.
  rewrite exec_Idle by reflexivity. reflexivity.
Qed.

Lemma noop_calls_back_null_witness :
  run Sample.remote [] (Options "acme/widgets" None (Some "t0k")) [0; 3; 1]
  = (State [[]] (Options "acme/widgets" None (Some "t0k")) 1 [] Idle
           [Callback (Fired None Null)], Returned 0).
Proof. apply noop_calls_back_null. reflexivity. Defined.

(** ** Colors *)

Lemma normalize_normal c color :
  o_color c = Some color -> normalize c = Some (normal c).
Proof. intros H. unfold normalize, normal. rewrite H. reflexivity. Qed.

(** C8, as the code has it.  One leading ["#"] is stripped and no more; a
    color written with a leading ["#"] and the same digits without it
    are stored alike; and normalizing again changes nothing provided the
    stored color does not itself begin with ["#"] (a label that passed
    the loop has a name, which is kept as well). *)
Theorem normalize_strips_one_hash :
  (forall rest, strip_hash (String "#" rest) = rest)
  /\ (forall color, hashed color = false -> strip_hash color = color)
  /\ (forall name label rest hex,
        hashed hex = false ->
        normalize (Obj name label (Some (String "#" hex)) rest)
        = normalize (Obj name label (Some hex) rest))
  /\ (forall color,
        hashed (strip_hash color) = false ->
        strip_hash (strip_hash color) = strip_hash color)
  /\ (forall c c1 color,
        normalize c = Some c1 -> truthy (o_name c1) = true ->
        o_color c1 = Some color -> hashed color = false ->
        normalize c1 = Some c1).
Proof.
  assert (strip : forall color, hashed color = false -> strip_hash color = color).
  { intros [|a s]; [reflexivity|]. cbn.
    destruct a as [[] [] [] [] [] [] [] []]; try reflexivity; discriminate. }
  repeat split.
  - exact strip.
  - intros name label rest hex H. unfold normalize. cbn [o_color o_name o_label].
    change (strip_hash (String "#" hex)) with hex. rewrite (strip hex H). reflexivity.
  - intros color H. apply strip. exact H.
  - intros c c1 color Hn Ht Hc Hh. unfold normalize in *.
    destruct (o_color c) as [col|]; [|discriminate].
    injection Hn as <-. cbn [o_color o_name o_label] in *. injection Hc as <-.
    rewrite (strip _ Hh). unfold or_else at 1. rewrite Ht. reflexivity.
Qed.

Lemma normalize_strips_one_hash_witness :
  normalize (Obj (Some "bug") None (Some "#f00") [])
  = normalize (Obj (Some "bug") None (Some "f00") [])
  /\ strip_hash (strip_hash "#f00") = strip_hash "#f00"
  /\ normalize (Sample.label "bug" "f00") = Some (Sample.label "bug" "f00").
Proof.
  destruct normalize_strips_one_hash as (_ & _ & same & twice & again).
  split; [|split].
  - apply same. reflexivity.
  - apply twice. reflexivity.
  - apply (again (Sample.label "bug" "#f00") _ "f00"); reflexivity.
Defined.

(** C8 as stated fails on a color with two leading ["#"]: each pass
    strips one, so the second pass changes the stored value again. *)
Lemma strip_twice_differs :
  strip_hash (strip_hash "##f00") <> strip_hash "##f00"
  /\ normalize (Sample.label "bug" "##f00") = Some (Sample.label "bug" "#f00")
  /\ normalize (Sample.label "bug" "#f00") = Some (Sample.label "bug" "f00").
Proof. repeat split. cbn. discriminate. Qed.

(** ** A run without a source *)

Lemma Permutation_filter {A} (f : A -> bool) l l' :
  Permutation l l' -> Permutation (filter f l) (filter f l').
Proof.
  induction 1 as [|x l l' _ IH|x y l|l l' l'' _ IH1 _ IH2]; cbn.
  - constructor.
  - destruct (f x); [constructor|]; exact IH.
  - destruct (f x), (f y); try reflexivity. constructor.
  - etransitivity; eassumption.
Qed.

Lemma count_Permutation f l l' : Permutation l l' -> count f l = count f l'.
Proof. intros H. unfold count. apply Permutation_length, Permutation_filter, H. Qed.

Lemma count_app f l l' : count f (l ++ l') = count f l + count f l'.
Proof. unfold count. rewrite filter_app, length_app. reflexivity. Qed.

(** Valid labels and no source: the call dispatches on the target and the
    loop, under any schedule long enough, calls the caller back once,
    last, with what the dispatched work amounts to. *)
Lemma run_valid gh labels o schedule n out E :
  truthy (source o) = false ->
  labels <> [] ->
  forallb valid labels = true ->
  eval gh (dispatch 0 (fst (parse_target (repo o))) (snd (parse_target (repo o)))
                    (map normal labels)) n out E ->
  n <= length schedule ->
  exists T,
    Permutation T E
    /\ run gh labels o schedule
       = (State [map normal labels] o 1 [] Idle
            (map Request (requests (dispatch 0 (fst (parse_target (repo o)))
                                             (snd (parse_target (repo o)))
                                             (map normal labels)))
             ++ T ++ [Callback out]),
          Returned 0).
Proof.
  intros Hs Hne Hv He Hn. unfold run.
  rewrite (GitHubLabeller_dispatches 0 (initial labels o) (map normal labels) Hs Hne
             (normalize_from_valid 0 labels Hv)).
  cbn [initial s_options s_emitters].
  set (p := dispatch _ _ _ _) in *.
  destruct (exec_launch gh p n out E
              (write 0 (map normal labels) (snd (new_emitter (initial labels o))))
              schedule He) as (T & HT & Hx);
    [unfold p; rewrite leaves_dispatch; lia|exact Hn|].
  exists T. split.
  - cbn in HT. rewrite relay_none in HT. exact HT.
  - rewrite Hx. reflexivity.
Qed.

(** One repository named in the target. *)
Lemma run_pair gh labels o schedule user r :
  truthy (source o) = false ->
  labels <> [] ->
  forallb valid labels = true ->
  parse_target (repo o) = (user, Some r) -> r <> "" ->
  repo_requests gh user r (map normal labels) <= length schedule ->
  exists T,
    Permutation T (repo_events gh 0 user r (map normal labels))
    /\ run gh labels o schedule
       = (State [map normal labels] o 1 [] Idle
            (Request (check_request user r) :: T
             ++ [Callback (repo_outcome gh user r (map normal labels))]),
          Returned 0).
Proof.
  intros Hs Hne Hv Hp Hr Hn.
  assert (Ht : truthy (Some r) = true) by (destruct r; [congruence|reflexivity]).
  destruct (run_valid gh labels o schedule
              (repo_requests gh user r (map normal labels))
              (repo_outcome gh user r (map normal labels))
              (repo_events gh 0 user r (map normal labels)) Hs Hne Hv)
    as (T & HT & Hx).
  - rewrite Hp. cbn [fst snd]. unfold dispatch. rewrite Ht. apply eval_checkRepo.
  - exact Hn.
  - exists T. split; [exact HT|]. rewrite Hx, Hp. cbn [fst snd].
    unfold dispatch. rewrite Ht. reflexivity.
Qed.


(** ** Strings: targets and encoded names *)

Lemma split_nonempty sep s : split sep s <> [].
Proof.
  destruct s as [|c s]; cbn; [discriminate|].
  destruct (Ascii.eqb c sep); [discriminate|].
  destruct (split sep s); discriminate.
Qed.

Lemma join_cons_char c h t : join (String c h :: t) = String c (join (h :: t)).
Proof. destruct t; reflexivity. Qed.

Lemma join_split s : join (split "/" s) = s.
Proof.
  induction s as [|c s IH]; [reflexivity|]. cbn [split].
  destruct (Ascii.eqb c "/") eqn:E.
  - apply Ascii.eqb_eq in E. subst c.
    destruct (split "/" s) as [|h t] eqn:S; [exfalso; exact (split_nonempty _ _ S)|].
    cbn [join]. cbn. rewrite <- IH. reflexivity.
  - destruct (split "/" s) as [|h t] eqn:S; [exfalso; exact (split_nonempty _ _ S)|].
    rewrite join_cons_char, IH. reflexivity.
Qed.

Lemma split_no_slash s : forallb (fun seg => negb (has_slash seg)) (split "/" s) = true.
Proof.
  induction s as [|c s IH]; [reflexivity|]. cbn [split].
  destruct (Ascii.eqb c "/") eqn:E.
  - cbn [forallb has_slash negb]. exact IH.
  - destruct (split "/" s) as [|h t] eqn:S; [exfalso; exact (split_nonempty _ _ S)|].
    cbn [forallb has_slash] in *. rewrite E. exact IH.
Qed.

Lemma split_plain s : has_slash s = false -> split "/" s = [s].
Proof.
  induction s as [|c s IH]; [reflexivity|]. cbn [has_slash split]. intros H.
  apply orb_false_iff in H as [E H]. rewrite E, (IH H). reflexivity.
Qed.

Lemma split_app u s :
  has_slash u = false -> split "/" (u ++ String "/" s) = u :: split "/" s.
Proof.
  induction u as [|c u IH]; [reflexivity|]. cbn [has_slash]. intros H.
  apply orb_false_iff in H as [E H]. cbn [append split]. rewrite E, (IH H). reflexivity.
Qed.







(** ** Create or update *)



Lemma filter_writes_upserts owner repo known (cs : list obj) :
  filter is_write (map (fun c => Request (upsert owner repo c known)) cs)
  = map (fun c => Request (upsert owner repo c known)) cs.
Proof. induction cs as [|c cs IH]; cbn; [reflexivity|]. rewrite IH. reflexivity. Qed.

Lemma filter_added gh f ev owner repo known (cs : list obj) :
  (forall ev' o r c e d, f (Added ev' o r c e d) = false) ->
  filter f (map (added gh ev owner repo known) cs) = [].
Proof.
  intros Hf. induction cs as [|c cs IH]; cbn; [reflexivity|].
  unfold added at 1. destruct (writing gh _). rewrite Hf. exact IH.
Qed.









(** ** Which listings ask for all pages *)

Lemma run_source_call labels o :
  truthy (source o) = true ->
  GitHubLabeller 0 (initial labels o)
  = (State [labels] o 1 [] (Sourcing 0 0 (source_request (source o)))
           [Request (source_request (source o))], Returned 0).
Proof.
  intros H. unfold GitHubLabeller. cbn. rewrite H. cbn.
  rewrite andb_false_r. reflexivity.
Qed.

(** C9. The existing-labels fetch of a repository is issued without the
    all-pages option, and the names the writes are routed by are those of
    the answer to that very request; the source listing and the listing
    of the user's repositories both ask for all pages. *)
Theorem existing_labels_fetch_one_page gh :
  (forall ev owner repo label,
     requests (checkRepo ev owner repo label) = [check_request owner repo]
     /\ all (check_request owner repo) = false)
  /\ (forall ev owner repo label existing,
        listing gh (check_request owner repo) = inr existing ->
        resume gh (KCheck ev owner repo label) (check_request owner repo)
        = addToRepo ev owner repo label (map o_name existing))
  /\ (forall labels o,
        truthy (source o) = true ->
        s_trace (fst (run gh labels o [])) = [Request (source_request (source o))]
        /\ all (source_request (source o)) = true)
  /\ (forall labels o user r,
        truthy (source o) = false -> labels <> [] -> forallb valid labels = true ->
        parse_target (repo o) = (user, r) -> truthy r = false ->
        s_trace (fst (run gh labels o [])) = [Request (repos_request user)]
        /\ all (repos_request user) = true).
Proof.
  split; [|split; [|split]].
  - intros ev owner repo label. split; reflexivity.
  - intros ev owner repo label existing L. cbn [resume]. rewrite L. reflexivity.
  - intros labels o Hs. split; [|reflexivity].
    unfold run. rewrite (run_source_call labels o Hs). reflexivity.
  - intros labels o user r Hs Hne Hv Hp Hr. split; [|reflexivity].
    unfold run.
    rewrite (GitHubLabeller_dispatches 0 (initial labels o) (map normal labels) Hs Hne
               (normalize_from_valid 0 labels Hv)).
    cbn [initial s_options]. rewrite Hp. cbn [fst snd]. unfold dispatch. rewrite Hr.
    reflexivity.
Qed.

Lemma existing_labels_fetch_one_page_witness :
  resume Sample.remote (KCheck 0 "acme" "widgets" [Sample.label "bug" "f00"])
         (check_request "acme" "widgets")
  = addToRepo 0 "acme" "widgets" [Sample.label "bug" "f00"] [Some "bug"]
  /\ s_trace (fst (run Sample.remote [] (Options "acme" (Some "src/labs") None) []))
     = [Request (Req "repos/src/labs/labels" true None)]
  /\ s_trace (fst (run Sample.remote [Sample.label "bug" "f00"]
                       (Options "acme" None None) []))
     = [Request (Req "users/acme/repos" true None)].
Proof.
  destruct (existing_labels_fetch_one_page Sample.remote) as (_ & known & src & own).
  split; [|split].
  - apply (known 0 "acme" "widgets" _ [Sample.label "bug" "123456"]). reflexivity.
  - apply (src [] (Options "acme" (Some "src/labs") None)). reflexivity.
  - apply (own [Sample.label "bug" "f00"] (Options "acme" None None) "acme" None);
      [reflexivity|discriminate|reflexivity|reflexivity|reflexivity].
Defined.

(** ** Malformed labels *)

Lemma run_sourced gh labels o k schedule lbls :
  truthy (source o) = true ->
  listing gh (source_request (source o)) = inr lbls ->
  run gh labels o (k :: schedule) = (exec gh schedule (rerun labels lbls o), Returned 0).
Proof.
  intros Hs Hl. unfold run. rewrite (run_source_call labels o Hs).
  cbn [exec]. unfold turn at 1. cbn [s_act]. rewrite Hl.
  unfold rerun, merged_state. cbn [become delete_source alloc read s_arrays s_options
    s_emitters s_relays s_act s_trace nth length repo token app].
  destruct (GitHubLabeller 1 _) as [st [gl|e]]; reflexivity.
Qed.

Lemma GitHubLabeller_plain a st :
  truthy (source (s_options st)) = false ->
  GitHubLabeller a st
  = match read a st, normalize_from 0 (read a st) with
    | [], _ =>
        (log [Callback (Fired None Null)] (snd (new_emitter st)),
         Returned (s_emitters st))
    | _ :: _, (arr, Normalized) =>
        (launch (dispatch (s_emitters st)
                          (fst (parse_target (repo (s_options st))))
                          (snd (parse_target (repo (s_options st)))) arr)
                (write a arr (snd (new_emitter st))),
         Returned (s_emitters st))
    | _ :: _, (arr, Rejected e) =>
        (log [Callback (Fired (Some e) Undefined)]
             (write a arr (snd (new_emitter st))),
         Returned (s_emitters st))
    | _ :: _, (arr, Threw e) =>
        (write a arr (snd (new_emitter st)), Raised e)
    end.
Proof.
  intros Hs. unfold GitHubLabeller. cbn [new_emitter s_options snd].
  change (read a (State (s_arrays st) (s_options st) (S (s_emitters st))
                        (s_relays st) (s_act st) (s_trace st))) with (read a st).
  rewrite Hs. cbn [negb]. rewrite andb_true_r.
  destruct (read a st) as [|c l] eqn:R; [reflexivity|]. cbn [length Nat.eqb].
  destruct (normalize_from 0 (c :: l)) as [arr [|e|e]]; try reflexivity.
  destruct (parse_target (repo (s_options st))) as [user r]. reflexivity.
Qed.

Lemma normalize_from_bad i good bad rest color :
  forallb valid good = true ->
  o_color bad = Some color ->
  valid bad = false ->
  normalize_from i (good ++ bad :: rest)
  = (map normal good ++ normal bad :: rest, Rejected (complaint bad (i + length good))).
Proof.
  intros Hg Hc Hb. revert i. induction good as [|c good IH]; intros i.
  - cbn [app map length normalize_from]. rewrite Nat.add_0_r.
    unfold valid in Hb. rewrite (normalize_normal bad color Hc) in *.
    unfold complaint.
    destruct (truthy (o_name (normal bad))); cbn [negb andb] in *.
    + rewrite Hb. reflexivity.
    + reflexivity.
  - cbn [forallb] in Hg. apply andb_true_iff in Hg as [Hv Hg].
    cbn [app map length normalize_from]. unfold valid in Hv.
    destruct (o_color c) as [col|] eqn:C;
      [|unfold normalize in Hv; rewrite C in Hv; discriminate].
    rewrite (normalize_normal c col C) in *.
    apply andb_true_iff in Hv as [Hn Hcol]. rewrite Hn, Hcol. cbn [negb].
    rewrite (IH Hg (S i)). f_equal. f_equal. f_equal. lia.
Qed.

(** C6, as the code has it.  The label list is the caller's array, or
    with a source that array followed by the labels of the source.  When
    the entries before the first malformed one are well-formed and the
    malformed one has a color property (its name is missing or empty, or
    its color is empty once a leading ["#"] is stripped), the caller is
    called back once, with the error naming that index and with no
    result, and no label is written or announced.  With no source
    nothing is requested at all, whatever the schedule; with a source the
    listing of the source is the one request, and the error follows its
    answer. *)
Theorem malformed_label_rejected gh good bad rest o color :
  forallb valid good = true ->
  o_color bad = Some color ->
  valid bad = false ->
  (truthy (source o) = false ->
   forall schedule,
     run gh (good ++ bad :: rest) o schedule
     = (State [map normal good ++ normal bad :: rest] o 1 [] Idle
              [Callback (Fired (Some (complaint bad (length good))) Undefined)],
        Returned 0))
  /\ (truthy (source o) = true ->
      forall labels lbls k schedule,
        listing gh (source_request (source o)) = inr lbls ->
        (labels ++ lbls = good ++ bad :: rest)%list ->
        run gh labels o (k :: schedule)
        = (State [labels; map normal good ++ normal bad :: rest]
                 (Options (repo o) None (token o)) 2 [(1, 0)] Idle
                 [Request (source_request (source o));
                  Callback (Fired (Some (complaint bad (length good))) Undefined)],
           Returned 0)).
Proof.
  intros Hg Hc Hb. split.
  - intros Hs schedule. unfold run, GitHubLabeller.
    cbn [initial new_emitter s_options s_emitters s_arrays read nth].
    rewrite Hs. cbn [negb].
    replace (length (good ++ bad :: rest) =? 0) with false
      by (symmetry; apply Nat.eqb_neq; rewrite length_app; cbn; lia).
    cbn [andb]. rewrite (normalize_from_bad 0 good bad rest color Hg Hc Hb).
    cbn. rewrite exec_Idle by reflexivity. reflexivity.
  - intros Hs labels lbls k schedule Hl Hm.
    rewrite (run_sourced gh labels o k schedule lbls Hs Hl). f_equal.
    unfold rerun. rewrite GitHubLabeller_plain by reflexivity.
    unfold merged_state. cbn [read s_arrays nth]. rewrite Hm.
    rewrite (normalize_from_bad 0 good bad rest color Hg Hc Hb).
    destruct (good ++ bad :: rest) as [|c l] eqn:E;
      [destruct good; discriminate E|].
    cbn. rewrite exec_Idle by reflexivity. reflexivity.
Qed.

Lemma malformed_label_rejected_witness :
  run Sample.remote
      [Sample.label "bug" "#f00"; Sample.label "feat" "0f0"; Sample.label "" "00f"]
      (Options "acme/widgets" None None) [0; 0]
  = (State [[Sample.label "bug" "f00"; Sample.label "feat" "0f0";
             Obj None None (Some "00f") []]]
           (Options "acme/widgets" None None) 1 [] Idle
           [Callback (Fired (Some (Error "Missing name for label: 2")) Undefined)],
     Returned 0)
  /\ run Sample.remote
         [Sample.label "bug" "#f00"; Sample.label "feat" "#"]
         (Options "acme/widgets" (Some "src/labs") None) [0; 0]
     = (State [[Sample.label "bug" "#f00"; Sample.label "feat" "#"];
               [Sample.label "bug" "f00"; Sample.label "feat" "";
                Sample.label "bug" "00f"; Sample.label "feat" "0f0"]]
              (Options "acme/widgets" None None) 2 [(1, 0)] Idle
              [Request (Req "repos/src/labs/labels" true None);
               Callback (Fired (Some (Error "Missing color for label: 1")) Undefined)],
        Returned 0).
Proof.
  split.
  - apply (proj1 (malformed_label_rejected Sample.remote
             [Sample.label "bug" "#f00"; Sample.label "feat" "0f0"]
             (Sample.label "" "00f") [] (Options "acme/widgets" None None) "00f"
             eq_refl eq_refl eq_refl) eq_refl [0; 0]).
  - apply (proj2 (malformed_label_rejected Sample.remote
             [Sample.label "bug" "#f00"]
             (Sample.label "feat" "#")
             [Sample.label "bug" "00f"; Sample.label "feat" "0f0"]
             (Options "acme/widgets" (Some "src/labs") None) "#"
             eq_refl eq_refl eq_refl) eq_refl
             [Sample.label "bug" "#f00"; Sample.label "feat" "#"]
             [Sample.label "bug" "00f"; Sample.label "feat" "0f0"] 0 [0]
             eq_refl eq_refl).
Defined.

(** C6 as stated fails when a source is given: the source listing is
    requested before any label is looked at, and the malformed label is
    reported only once the listing has been answered.  (A label with no
    color property at all is not reported either: the loop throws.) *)
Lemma validation_follows_source_fetch :
  run Sample.remote [Obj None None (Some "f00") []]
      (Options "acme/widgets" (Some "src/labs") None) []
  = (State [[Obj None None (Some "f00") []]]
           (Options "acme/widgets" (Some "src/labs") None) 1 []
           (Sourcing 0 0 (Req "repos/src/labs/labels" true None))
           [Request (Req "repos/src/labs/labels" true None)],
     Returned 0)
  /\ s_trace (fst (run Sample.remote [Obj None None (Some "f00") []]
                       (Options "acme/widgets" (Some "src/labs") None) [0]))
     = [Request (Req "repos/src/labs/labels" true None);
        Callback (Fired (Some (Error "Missing name for label: 0")) Undefined)]
  /\ run Sample.remote [Sample.named "bug"] (Options "acme/widgets" None None) [0]
     = (State [[Sample.named "bug"]] (Options "acme/widgets" None None) 1 [] Idle [],
        Raised charAt_undefined).
Proof. repeat split. Qed.

(** ** The target *)













(** ** An array of labels on one repository *)


Lemma count_added_on gh ev owner repo known (cs : list obj) :
  count (is_added_on ev) (map (added gh ev owner repo known) cs) = length cs.
Proof.
  unfold count. induction cs as [|c cs IH]; [reflexivity|]. cbn [map filter].
  unfold added at 1. destruct (writing gh _). cbn [is_added_on].
  rewrite Nat.eqb_refl. cbn [length]. f_equal. exact IH.
Qed.




(** ** Every repository of a user *)






(** ** Labels taken from a source repository *)



Lemma count_writes_upserts owner repo known (cs : list obj) :
  count is_write (map (fun c => Request (upsert owner repo c known)) cs) = length cs.
Proof. unfold count. rewrite filter_writes_upserts. apply length_map. Qed.

Lemma filter_added_upserts ev owner repo known (cs : list obj) :
  filter (is_added_on ev) (map (fun c => Request (upsert owner repo c known)) cs) = [].
Proof. induction cs as [|c cs IH]; [reflexivity|exact IH]. Qed.



(** ** What a run does to its arguments *)

Lemma turn_frame gh k st :
  sourcing st = false ->
  s_arrays (turn gh k st) = s_arrays st
  /\ s_options (turn gh k st) = s_options st
  /\ sourcing (turn gh k st) = false.
Proof.
  unfold sourcing, turn. destruct (s_act st) as [| |p] eqn:A; intros H.
  - rewrite A. auto.
  - discriminate.
  - destruct (step gh (k mod leaves p) p) as [p' evs].
    destruct p'; cbn; auto.
Qed.

Lemma exec_frame gh schedule st :
  sourcing st = false ->
  s_arrays (exec gh schedule st) = s_arrays st
  /\ s_options (exec gh schedule st) = s_options st.
Proof.
  revert st. induction schedule as [|k rest IH]; intros st H; [auto|].
  cbn [exec]. destruct (turn_frame gh k st H) as (Ha & Ho & Hs).
  destruct (IH _ Hs) as (Ha' & Ho'). split; congruence.
Qed.

(** One call: the options object is left alone; the array it was passed
    is the only one written, and only when it gets to the loop. *)
Lemma GitHubLabeller_frame a st :
  s_options (fst (GitHubLabeller a st)) = s_options st
  /\ ((s_arrays (fst (GitHubLabeller a st)) = s_arrays st
       /\ (truthy (source (s_options st)) = true \/ read a st = []))
      \/ (truthy (source (s_options st)) = false
          /\ s_arrays (fst (GitHubLabeller a st))
             = set_nth a (fst (normalize_from 0 (read a st))) (s_arrays st)))
  /\ (truthy (source (s_options st)) = false -> sourcing st = false ->
      sourcing (fst (GitHubLabeller a st)) = false).
Proof.
  unfold GitHubLabeller. cbn [new_emitter s_options].
  change (read a (State (s_arrays st) (s_options st) (S (s_emitters st))
                        (s_relays st) (s_act st) (s_trace st))) with (read a st).
  destruct (truthy (source (s_options st))) eqn:S; cbn [negb].
  - rewrite andb_false_r. cbn. split; [reflexivity|]. split; [left; auto|].
    discriminate.
  - rewrite andb_true_r. destruct (length (read a st) =? 0) eqn:E.
    + apply Nat.eqb_eq, length_zero_iff_nil in E. cbn.
      split; [reflexivity|]. split; [left; auto|auto].
    + destruct (normalize_from 0 (read a st)) as [arr ended] eqn:N. cbn [fst].
      destruct ended as [|e|e].
      * destruct (parse_target (repo (s_options st))) as [user r]. cbn.
        split; [reflexivity|]. split; [right; split; reflexivity|reflexivity].
      * cbn. split; [reflexivity|]. split; [right; split; reflexivity|auto].
      * cbn. split; [reflexivity|]. split; [right; split; reflexivity|auto].
Qed.

Lemma rerun_frame labels lbls o :
  s_options (rerun labels lbls o) = Options (repo o) None (token o)
  /\ read 0 (rerun labels lbls o) = labels
  /\ sourcing (rerun labels lbls o) = false.
Proof.
  unfold rerun.
  destruct (GitHubLabeller_frame 1 (merged_state labels lbls o)) as (Ho & Ha & Hs).
  specialize (Hs eq_refl eq_refl).
  destruct (GitHubLabeller 1 (merged_state labels lbls o)) as [st [gl|e]];
    cbn [fst] in *; unfold read;
    cbn [on_added log s_options s_arrays sourcing s_act];
    (split; [exact Ho|]); (split; [|exact Hs]);
    destruct Ha as [[-> _] | [_ ->]]; reflexivity.
Qed.

(** C10. A run writes into the arguments it was given.  With no source,
    the caller's array holds, after the run, what the loop of lines 56-72
    left in it: for labels that all pass, the new [{name, color}] object
    of each, in place; the options object is as it was.  With a source
    whose listing is answered, the options object has lost its source
    property, and the array the loop then overwrites is the new, merged
    one, not the caller's.  In every run the other properties of the
    options object are unchanged. *)
Theorem arguments_mutated_in_place gh labels o schedule :
  (truthy (source o) = false ->
     s_arrays (fst (run gh labels o schedule)) = [fst (normalize_from 0 labels)]
     /\ (forallb valid labels = true ->
         fst (normalize_from 0 labels) = map normal labels)
     /\ s_options (fst (run gh labels o schedule)) = o)
  /\ (forall c, o_label (normal c) = None /\ o_rest (normal c) = []
                /\ o_name (normal c) = or_else (o_name c) (o_label c)
                /\ o_color (normal c) = option_map strip_hash (o_color c))
  /\ (truthy (source o) = true ->
      forall k lbls,
        listing gh (source_request (source o)) = inr lbls ->
        s_options (fst (run gh labels o (k :: schedule)))
        = Options (repo o) None (token o)
        /\ read 0 (fst (run gh labels o (k :: schedule))) = labels)
  /\ repo (s_options (fst (run gh labels o schedule))) = repo o
  /\ token (s_options (fst (run gh labels o schedule))) = token o.
Proof.
  assert (plain : truthy (source o) = false ->
            s_arrays (fst (run gh labels o schedule)) = [fst (normalize_from 0 labels)]
            /\ s_options (fst (run gh labels o schedule)) = o).
  { intros Hs. unfold run.
    destruct (GitHubLabeller_frame 0 (initial labels o)) as (Ho & Ha & Hsrc).
    specialize (Hsrc Hs eq_refl).
    destruct (GitHubLabeller 0 (initial labels o)) as [st res]. cbn [fst] in *.
    destruct (exec_frame gh schedule st Hsrc) as (Ea & Eo).
    rewrite Ea, Eo. split; [|exact Ho].
    destruct Ha as [[E [F|F]] | [_ E]]; [| |exact E].
    - cbn in F. congruence.
    - cbn in F. subst labels. exact E. }
  assert (sourced : truthy (source o) = true ->
            forall k lbls sched,
              listing gh (source_request (source o)) = inr lbls ->
              s_options (fst (run gh labels o (k :: sched)))
              = Options (repo o) None (token o)
              /\ read 0 (fst (run gh labels o (k :: sched))) = labels).
  { intros Hs k lbls sched Hl. rewrite (run_sourced gh labels o k sched lbls Hs Hl).
    cbn [fst]. destruct (rerun_frame labels lbls o) as (Ho & Ha & Hsrc).
    destruct (exec_frame gh sched _ Hsrc) as (Ea & Eo).
    unfold read in *. rewrite Ea, Eo. auto. }
  split; [|split; [|split]].
  - intros Hs. destruct (plain Hs) as [Ha Ho]. repeat split; [exact Ha| |exact Ho].
    intros Hv. rewrite (normalize_from_valid 0 labels Hv). reflexivity.
  - intros c. repeat split.
  - intros Hs k lbls Hl. apply (sourced Hs k lbls schedule Hl).
  - destruct (truthy (source o)) eqn:Hs.
    + destruct schedule as [|k sched].
      * unfold run. rewrite (run_source_call labels o Hs). cbn. auto.
      * destruct (listing gh (source_request (source o))) as [err|lbls] eqn:Hl.
        -- unfold run. rewrite (run_source_call labels o Hs).
           cbn [exec fst]. unfold turn. cbn [s_act]. rewrite Hl.
           match goal with
           | |- context [exec gh sched ?st] =>
               destruct (exec_frame gh sched st eq_refl) as (_ & Eo); rewrite Eo
           end.
           split; reflexivity.
        -- destruct (sourced eq_refl k lbls sched eq_refl) as [Ho _]. rewrite Ho. cbn. auto.
    + destruct (plain eq_refl) as [_ Ho]. rewrite Ho. auto.
Qed.

Lemma arguments_mutated_in_place_witness :
  s_arrays (fst (run Sample.remote
                     [Obj None (Some "bug") (Some "#f00") [("description", "broken")]]
                     (Options "acme/widgets" None (Some "t0k")) [0; 0]))
  = [[Sample.label "bug" "f00"]]
  /\ s_options (fst (run Sample.remote [Sample.label "bug" "#f00"]
                         (Options "acme/widgets" (Some "src/labs") (Some "t0k"))
                         [0; 0; 0; 0; 0]))
     = Options "acme/widgets" None (Some "t0k").
Proof.
  split.
  - destruct (arguments_mutated_in_place Sample.remote
                [Obj None (Some "bug") (Some "#f00") [("description", "broken")]]
                (Options "acme/widgets" None (Some "t0k")) [0; 0])
      as (plain & _).
    destruct (plain eq_refl) as (Ha & Hn & _). rewrite Ha, (Hn eq_refl). reflexivity.
  - destruct (arguments_mutated_in_place Sample.remote [Sample.label "bug" "#f00"]
                (Options "acme/widgets" (Some "src/labs") (Some "t0k")) [0; 0; 0; 0])
      as (_ & _ & sourced & _).
    destruct (sourced eq_refl 0 [Sample.label "bug" "00f"; Sample.label "feat" "0f0"]
                eq_refl) as [Ho _].
    exact Ho.
Defined.

(** * Further properties of the code *)

(** ** A run under any schedule, long or short *)

Lemma eval_dispatch gh ev user repo labels :
  eval gh (dispatch ev user repo labels)
       (dispatch_requests gh user repo labels)
       (dispatch_outcome gh user repo labels)
       (dispatch_events gh ev user repo labels).
Proof.
  unfold dispatch, dispatch_requests, dispatch_outcome, dispatch_events.
  destruct (truthy repo); [apply eval_checkRepo|].
  destruct (listing gh (repos_request user)) as [err|repos] eqn:L.
  - apply eval_not_listed, L.
  - apply eval_listed, L.
Qed.

(** However far the schedule goes: either the work has called back, last,
    or it is still in flight and what has been seen together with what
    is still to come is what the work amounts to. *)
Lemma exec_fanning_any gh sched :
  forall p n o E st,
    eval gh p n o E -> 0 < leaves p -> s_act st = Fanning p ->
    (exists T,
       Permutation T (flat_map (relay (s_relays st)) E)
       /\ exec gh sched st = become Idle (log (T ++ [Callback o]) st))
    \/
    (exists T p' n' E',
       eval gh p' n' o E' /\ 0 < leaves p'
       /\ Permutation (T ++ flat_map (relay (s_relays st)) E')
                      (flat_map (relay (s_relays st)) E)
       /\ exec gh sched st = become (Fanning p') (log T st)).
Proof.
  induction sched as [|k rest IH]; intros p n o E st He Hl Hact.
  - right. exists [], p, n, E. repeat split; [exact He|exact Hl|reflexivity|].
    cbn [exec]. destruct st. cbn in *. subst. unfold become, log. cbn.
    rewrite app_nil_r. reflexivity.
  - assert (Hi : k mod leaves p < leaves p) by (apply Nat.mod_upper_bound; lia).
    destruct (step_eval gh _ _ _ _ _ He Hi) as (n' & E' & Hn & He' & Hp & Hd).
    cbn [exec]. unfold turn. rewrite Hact.
    destruct (step gh (k mod leaves p) p) as [p' evs]. cbn [fst snd] in *.
    destruct (Nat.eq_dec (leaves p') 0) as [H0|H0].
    + left. rewrite (Hd H0) in *. inversion He'; subst.
      exists (flat_map (relay (s_relays st)) evs). split.
      * rewrite Hp, app_nil_r. reflexivity.
      * rewrite exec_Idle by reflexivity.
        unfold become, log. cbn. rewrite <- app_assoc. reflexivity.
    + set (st1 := log (flat_map (relay (s_relays st)) evs) st).
      assert (Hnext : exec gh rest
                (match p' with
                 | Fin o0 => become Idle (log [Callback o0] st1)
                 | _ => become (Fanning p') st1
                 end) = exec gh rest (become (Fanning p') st1)).
      { destruct p'; try reflexivity. exfalso. apply H0. reflexivity. }
      rewrite Hnext.
      assert (Hlp : 0 < leaves p') by lia.
      pose proof (IH p' n' o E' (become (Fanning p') st1) He' Hlp eq_refl) as HI.
      destruct HI as [(T & HT & Hex) | (T & q & m & F & Hq & Hlq & HT & Hex)].
      * left. exists (flat_map (relay (s_relays st)) evs ++ T). split.
        -- rewrite Hp, flat_map_app. apply Permutation_app_head. exact HT.
        -- rewrite Hex. unfold become, log, st1. cbn. rewrite !app_assoc. reflexivity.
      * right. exists (flat_map (relay (s_relays st)) evs ++ T), q, m, F.
        repeat split; [exact Hq|exact Hlq| |].
        -- rewrite Hp, flat_map_app, <- app_assoc. apply Permutation_app_head.
           exact HT.
        -- rewrite Hex. unfold become, log, st1. cbn. rewrite !app_assoc. reflexivity.
Qed.

(** ** The loop of lines 56-72 *)

Lemma well_formed_normal c :
  valid c = true -> well_formed (normal c) = true.
Proof.
  unfold valid, normalize, well_formed, normal.
  destruct (o_color c) as [color|]; [|discriminate].
  cbn [o_name o_color o_label o_rest option_map]. intros ->. reflexivity.
Qed.

Lemma normalize_from_complete labels :
  forall i, snd (normalize_from i labels) = Normalized -> forallb valid labels = true.
Proof.
  induction labels as [|c labels IH]; intros j H; [reflexivity|].
  cbn [normalize_from] in H. cbn [forallb]. unfold valid at 1.
  destruct (normalize c) as [c'|]; [|discriminate H].
  destruct (truthy (o_name c')); [|discriminate H].
  destruct (truthy (o_color c')); [|discriminate H].
  cbn [negb andb] in *.
  destruct (normalize_from (S j) labels) as [rest r] eqn:N. cbn [snd] in H.
  apply (IH (S j)). rewrite N. exact H.
Qed.

Lemma well_formed_normals labels :
  forallb valid labels = true -> forallb well_formed (map normal labels) = true.
Proof.
  induction labels as [|c labels IH]; [reflexivity|].
  cbn [forallb map]. intros V. apply andb_true_iff in V as [Vc Vl].
  rewrite (well_formed_normal c Vc). exact (IH Vl).
Qed.

Lemma normalized_well_formed labels arr :
  normalize_from 0 labels = (arr, Normalized) ->
  arr = map normal labels /\ forallb well_formed arr = true.
Proof.
  intros H. assert (V : forallb valid labels = true)
    by (apply (normalize_from_complete labels 0); rewrite H; reflexivity).
  rewrite (normalize_from_valid 0 labels V) in H. injection H as <-.
  split; [reflexivity|apply well_formed_normals, V].
Qed.

(** X1. The loop runs to its end exactly when every label has a color
    property, a name (under [name] or [label]) that is not empty and a
    color that is not empty once a leading ["#"] is removed; the array
    then holds, position by position, a [{name, color}] object with both
    properties non-empty and nothing else. *)
Theorem loop_completes_iff_all_valid i labels :
  (snd (normalize_from i labels) = Normalized <-> forallb valid labels = true)
  /\ (snd (normalize_from i labels) = Normalized ->
      fst (normalize_from i labels) = map normal labels
      /\ length (fst (normalize_from i labels)) = length labels
      /\ forallb well_formed (fst (normalize_from i labels)) = true).
Proof.
  split.
  - split; [apply normalize_from_complete|].
    intros H. rewrite (normalize_from_valid i labels H). reflexivity.
  - intros H. pose proof (normalize_from_complete labels i H) as V.
    rewrite (normalize_from_valid i labels V). cbn [fst].
    repeat split; [apply length_map|apply well_formed_normals, V].
Qed.

Lemma loop_completes_iff_all_valid_witness :
  fst (normalize_from 0 [Obj None (Some "bug") (Some "#f00") [("id", "7")];
                         Sample.label "feat" "0f0"])
  = [Sample.label "bug" "f00"; Sample.label "feat" "0f0"].
Proof.
  apply (proj2 (loop_completes_iff_all_valid 0
                  [Obj None (Some "bug") (Some "#f00") [("id", "7")];
                   Sample.label "feat" "0f0"])).
  reflexivity.
Defined.

(** ** What a trace is made of *)

Lemma benign_relay rs e :
  benign e = true -> forallb benign (relay rs e) = true.
Proof.
  destruct e; cbn; intros H; rewrite ?H; try reflexivity; try discriminate.
  induction (filter (fun r => fst r =? ev) rs) as [|x l IH]; [reflexivity|exact IH].
Qed.

Lemma benign_relays rs E :
  forallb benign E = true -> forallb benign (flat_map (relay rs) E) = true.
Proof.
  induction E as [|e E IH]; [reflexivity|]. cbn [forallb flat_map]. intros H.
  apply andb_true_iff in H as [He HE]. rewrite forallb_app, (benign_relay rs e He).
  exact (IH HE).
Qed.

Lemma benign_repo_events gh ev owner repo label :
  forallb well_formed label = true ->
  forallb benign (repo_events gh ev owner repo label) = true.
Proof.
  intros W. unfold repo_events.
  destruct (listing gh (check_request owner repo)) as [|known]; [reflexivity|].
  rewrite forallb_app. apply andb_true_iff. split.
  - induction label as [|c label IH]; [reflexivity|]. cbn [forallb map] in *.
    apply andb_true_iff in W as [Wc Wl]. cbn [benign upsert data all].
    rewrite Wc. exact (IH Wl).
  - clear W. induction label as [|c label IH]; [reflexivity|]. cbn [forallb map].
    unfold added at 1. destruct (writing gh _). exact IH.
Qed.

Lemma benign_repos_events gh ev user label repos :
  forallb well_formed label = true ->
  forallb benign (repos_events gh ev user label repos) = true.
Proof.
  intros W. unfold repos_events. rewrite forallb_app. apply andb_true_iff. split.
  - induction repos as [|c repos IH]; [reflexivity|exact IH].
  - induction repos as [|c repos IH]; [reflexivity|]. cbn [flat_map].
    rewrite forallb_app, (benign_repo_events gh ev user (repo_name c) label W).
    exact IH.
Qed.

Lemma benign_dispatch_events gh ev user repo label :
  forallb well_formed label = true ->
  forallb benign (dispatch_events gh ev user repo label) = true.
Proof.
  intros W. unfold dispatch_events. destruct (truthy repo).
  - apply benign_repo_events, W.
  - destruct (listing gh (repos_request user)); [reflexivity|].
    apply benign_repos_events, W.
Qed.

Lemma benign_dispatch_requests ev user repo label :
  forallb benign (map Request (requests (dispatch ev user repo label))) = true.
Proof. unfold dispatch. destruct (truthy repo); reflexivity. Qed.

Lemma forallb_Permutation {A} (f : A -> bool) l l' :
  Permutation l l' -> forallb f l = forallb f l'.
Proof.
  induction 1 as [|x l l' _ IH|x y l|l l' l'' _ IH1 _ IH2]; cbn.
  - reflexivity.
  - rewrite IH. reflexivity.
  - destruct (f x), (f y); reflexivity.
  - congruence.
Qed.

Lemma forallb_part {A} (f : A -> bool) T F E :
  Permutation (T ++ F) E -> forallb f E = true -> forallb f T = true.
Proof.
  intros P H. rewrite <- (forallb_Permutation f _ _ P), forallb_app in H.
  apply andb_true_iff in H. apply H.
Qed.

(** The call when no source is set, by what the array holds. *)
Lemma launch_shape gh p n o E st sched :
  eval gh p n o E -> 0 < leaves p ->
  forallb benign (map Request (requests p)) = true ->
  forallb benign E = true ->
  shaped (s_trace st) (exec gh sched (launch p st)).
Proof.
  intros He Hl Hr HE.
  destruct (exec_fanning_any gh sched p n o E (launch p st) He Hl eq_refl)
    as [(T & HT & Hx) | (T & p' & n' & E' & _ & _ & HT & Hx)]; rewrite Hx.
  - exists (map Request (requests p) ++ T), [Callback o]. split; [|split].
    + cbn. rewrite <- !app_assoc. reflexivity.
    + rewrite forallb_app, Hr. cbn [andb].
      rewrite (forallb_Permutation benign _ _ HT). apply benign_relays, HE.
    + right. exists (Callback o). auto.
  - exists (map Request (requests p) ++ T), []. split; [|split].
    + cbn. rewrite <- !app_assoc, app_nil_r. reflexivity.
    + rewrite forallb_app, Hr. cbn [andb].
      apply (forallb_part benign _ _ _ HT). apply benign_relays, HE.
    + left. reflexivity.
Qed.

Lemma launch_shape_k gh p n o E st st' sched :
  eval gh p n o E -> 0 < leaves p ->
  forallb benign (map Request (requests p)) = true ->
  forallb benign E = true ->
  s_trace st' = s_trace st ->
  shaped (s_trace st) (exec gh sched (launch p st')).
Proof.
  intros He Hl Hr HE <-. eapply launch_shape; eassumption.
Qed.

Lemma shaped_ended base st x :
  s_trace st = base ++ [x] -> final x = true -> idle st = true -> shaped base st.
Proof.
  intros H F I. exists [], [x]. split; [exact H|]. split; [reflexivity|].
  right. exists x. auto.
Qed.

Lemma shaped_quiet base st T :
  s_trace st = base ++ T -> forallb benign T = true -> shaped base st.
Proof.
  intros H B. exists T, []. rewrite app_nil_r. auto.
Qed.

Lemma shaped_base base b st :
  benign b = true -> shaped (base ++ [b]) st -> shaped base st.
Proof.
  intros Hb (T & tail & H & B & Ht). exists (b :: T), tail. split; [|split].
  - rewrite H, <- app_assoc. reflexivity.
  - cbn [forallb]. rewrite Hb. exact B.
  - exact Ht.
Qed.

(** The call with no source set, then the loop, however long; [k] is
    what the caller of the call does to the state once it has returned. *)
Lemma call_shape gh a st sched (k : state -> state) :
  (forall s, s_trace (k s) = s_trace s) ->
  (forall s, s_act (k s) = s_act s) ->
  (forall p s, k (launch p s) = launch p (k s)) ->
  truthy (source (s_options st)) = false ->
  s_act st = Idle ->
  match snd (GitHubLabeller a st) with
  | Returned _ => shaped (s_trace st) (exec gh sched (k (fst (GitHubLabeller a st))))
  | Raised _ =>
      s_act (fst (GitHubLabeller a st)) = Idle
      /\ s_trace (fst (GitHubLabeller a st)) = s_trace st
  end.
Proof.
  intros Kt Ka Kl Hs Hi. rewrite (GitHubLabeller_plain a st Hs).
  destruct (read a st) as [|c l] eqn:R.
  - cbn [fst snd]. rewrite exec_Idle by (rewrite Ka; exact Hi).
    apply (shaped_ended _ _ (Callback (Fired None Null))); [|reflexivity|].
    + rewrite Kt. reflexivity.
    + unfold idle. rewrite Ka. cbn. rewrite Hi. reflexivity.
  - destruct (normalize_from 0 (c :: l)) as [arr [|e|e]] eqn:N; cbn [fst snd].
    + rewrite Kl.
      eapply launch_shape_k; [apply eval_dispatch|rewrite leaves_dispatch; lia
                              |apply benign_dispatch_requests| |rewrite Kt; reflexivity].
      apply benign_dispatch_events. apply (normalized_well_formed _ _ N).
    + rewrite exec_Idle by (rewrite Ka; exact Hi).
      apply (shaped_ended _ _ (Callback (Fired (Some e) Undefined))); [|reflexivity|].
      * rewrite Kt. reflexivity.
      * unfold idle. rewrite Ka. cbn. rewrite Hi. reflexivity.
    + split; [exact Hi|reflexivity].
Qed.

Lemma GitHubLabeller_returns a st :
  truthy (source (s_options st)) = false ->
  snd (GitHubLabeller a st) = Returned (s_emitters st)
  \/ exists e, snd (GitHubLabeller a st) = Raised e.
Proof.
  intros Hs. rewrite (GitHubLabeller_plain a st Hs).
  destruct (read a st); [left; reflexivity|].
  destruct (normalize_from 0 (o :: l)) as [arr [|e|e]]; cbn [snd]; eauto.
Qed.

(** Every run, under every schedule: benign events, then at most one
    final event with nothing left in flight. *)
Lemma run_shape gh labels o schedule :
  shaped [] (fst (run gh labels o schedule)).
Proof.
  destruct (truthy (source o)) eqn:Hs.
  - destruct schedule as [|k rest].
    + unfold run. rewrite (run_source_call labels o Hs). cbn [fst exec].
      apply (shaped_quiet _ _ [Request (source_request (source o))]); reflexivity.
    + destruct (listing gh (source_request (source o))) as [err|lbls] eqn:L.
      * unfold run. rewrite (run_source_call labels o Hs). cbn [fst exec].
        unfold turn. cbn [s_act]. rewrite L. rewrite exec_Idle by reflexivity.
        exists [Request (source_request (source o))],
               [Callback (Fired (Some err) Undefined)].
        split; [reflexivity|]. split; [reflexivity|]. right. eexists. eauto.
      * rewrite (run_sourced gh labels o k rest lbls Hs L). cbn [fst].
        apply (shaped_base [] (Request (source_request (source o)))); [reflexivity|].
        unfold rerun.
        pose proof (call_shape gh 1 (merged_state labels lbls o) rest (on_added 1 0)
                      (fun _ => eq_refl) (fun _ => eq_refl) (fun _ _ => eq_refl)
                      eq_refl eq_refl) as C.
        destruct (GitHubLabeller_returns 1 (merged_state labels lbls o) eq_refl)
          as [R | [e R]];
          destruct (GitHubLabeller 1 (merged_state labels lbls o)) as [st1 res];
          cbn [fst snd] in *; subst res.
        -- exact C.
        -- destruct C as [Ca Ct]. rewrite exec_Idle by exact Ca.
           apply (shaped_ended _ _ (Uncaught e)); [|reflexivity|].
           ++ cbn. rewrite Ct. reflexivity.
           ++ unfold idle. cbn. rewrite Ca. reflexivity.
  - unfold run.
    pose proof (call_shape gh 0 (initial labels o) schedule (fun s => s)
                  (fun _ => eq_refl) (fun _ => eq_refl) (fun _ _ => eq_refl)
                  Hs eq_refl) as C.
    destruct (GitHubLabeller 0 (initial labels o)) as [st1 [ev|e]]; cbn [fst snd] in *.
    + exact C.
    + destruct C as [Ca Ct]. rewrite exec_Idle by exact Ca.
      apply (shaped_quiet _ _ []); [rewrite Ct|]; reflexivity.
Qed.

(** ** A run whose schedule is long enough *)

Lemma count_writes_relays rs E :
  count is_write (flat_map (relay rs) E) = count is_write E.
Proof.
  unfold count. induction E as [|e E IH]; [reflexivity|].
  cbn [flat_map]. rewrite filter_app, length_app. cbn [filter].
  rewrite IH. destruct e; cbn [relay]; try reflexivity.
  - cbn [filter is_write]. destruct (data r); reflexivity.
  - cbn [filter is_write].
    induction (filter (fun r => fst r =? ev) rs) as [|x l IHl]; [reflexivity|exact IHl].
Qed.

Lemma count_writes_repo gh ev owner repo label :
  count is_write (repo_events gh ev owner repo label)
  = count (is_added_on ev) (repo_events gh ev owner repo label)
  /\ forallb (on_emitter ev) (repo_events gh ev owner repo label) = true.
Proof.
  unfold repo_events.
  destruct (listing gh (check_request owner repo)) as [|known]; [split; reflexivity|].
  split.
  - rewrite !count_app, count_writes_upserts, count_added_on. unfold count.
    rewrite (filter_added gh is_write) by reflexivity.
    rewrite filter_added_upserts. cbn. lia.
  - rewrite forallb_app. apply andb_true_iff. split.
    + induction label as [|c label IH]; [reflexivity|exact IH].
    + induction label as [|c label IH]; [reflexivity|]. cbn [map forallb].
      unfold added at 1. destruct (writing gh _). cbn [on_emitter].
      rewrite Nat.eqb_refl. exact IH.
Qed.

Lemma count_writes_dispatch gh ev user repo label :
  count is_write (dispatch_events gh ev user repo label)
  = count (is_added_on ev) (dispatch_events gh ev user repo label)
  /\ forallb (on_emitter ev) (dispatch_events gh ev user repo label) = true.
Proof.
  unfold dispatch_events. destruct (truthy repo); [apply count_writes_repo|].
  destruct (listing gh (repos_request user)) as [|repos]; [split; reflexivity|].
  unfold repos_events. split.
  - rewrite !count_app.
    replace (count is_write (map (fun c => Request (check_request user (repo_name c))) repos))
      with 0 by (induction repos as [|c repos IH]; [reflexivity|exact IH]).
    replace (count (is_added_on ev)
               (map (fun c => Request (check_request user (repo_name c))) repos))
      with 0 by (induction repos as [|c repos IH]; [reflexivity|exact IH]).
    cbn [Nat.add]. induction repos as [|c repos IH]; [reflexivity|].
    cbn [flat_map]. rewrite !count_app, IH.
    rewrite (proj1 (count_writes_repo gh ev user (repo_name c) label)). reflexivity.
  - rewrite forallb_app. apply andb_true_iff. split.
    + induction repos as [|c repos IH]; [reflexivity|exact IH].
    + induction repos as [|c repos IH]; [reflexivity|]. cbn [flat_map].
      rewrite forallb_app, (proj2 (count_writes_repo gh ev user (repo_name c) label)).
      exact IH.
Qed.

(** How many emissions reach emitter 0: those made on it when nothing is
    relayed, those made on emitter 1 when it is relayed to 0. *)
Lemma announced_plain E :
  count (is_added_on 0) (flat_map (relay []) E) = count (is_added_on 0) E.
Proof. rewrite relay_none. reflexivity. Qed.

Lemma announced_relayed E :
  forallb (on_emitter 1) E = true ->
  count (is_added_on 0) (flat_map (relay [(1, 0)]) E) = count (is_added_on 1) E.
Proof.
  unfold count. induction E as [|e E IH]; [reflexivity|].
  cbn [forallb flat_map]. intros H. apply andb_true_iff in H as [He HE].
  rewrite filter_app, length_app, (IH HE).
  destruct e; cbn [relay filter is_added_on length Nat.add]; try reflexivity.
  cbn [on_emitter] in He. apply Nat.eqb_eq in He. subst ev. reflexivity.
Qed.

Lemma count_dispatch_requests f ev user repo label :
  (forall r, data r = None -> f (Request r) = false) ->
  count f (map Request (requests (dispatch ev user repo label))) = 0.
Proof.
  intros Hf. unfold dispatch. destruct (truthy repo); unfold count; cbn;
    rewrite Hf; reflexivity.
Qed.

Lemma call_complete gh a st (k : state -> state) R :
  (forall s, s_trace (k s) = s_trace s) ->
  (forall s, s_act (k s) = s_act s) ->
  (forall p s, k (launch p s) = launch p (k s)) ->
  (forall l s, k (log l s) = log l (k s)) ->
  (forall s, s_relays s = s_relays st -> s_relays (k s) = R) ->
  (forall E, forallb (on_emitter (s_emitters st)) E = true ->
             count (is_added_on 0) (flat_map (relay R) E)
             = count (is_added_on (s_emitters st)) E) ->
  truthy (source (s_options st)) = false ->
  s_act st = Idle ->
  match snd (GitHubLabeller a st) with
  | Returned _ =>
      completes (call_turns gh (read a st) (s_options st))
                (fun sched => exec gh sched (k (fst (GitHubLabeller a st))))
                (s_trace st)
  | Raised _ =>
      s_act (fst (GitHubLabeller a st)) = Idle
      /\ s_trace (fst (GitHubLabeller a st)) = s_trace st
  end.
Proof.
  intros Kt Ka Kl Klog Kr Kann Hs Hi. rewrite (GitHubLabeller_plain a st Hs).
  unfold call_turns.
  assert (ended : forall x s,
            s_trace s = s_trace st -> s_act s = Idle -> final x = true ->
            completes 0 (fun sched => exec gh sched (k (log [x] s))) (s_trace st)).
  { intros x s Hts Has Fx. exists (k s), [], [x]. repeat split.
    - intros sched _. exists []. split; [constructor|].
      rewrite Klog. apply exec_Idle. cbn. rewrite Ka. exact Has.
    - rewrite Ka. exact Has.
    - exists []. rewrite Kt, Hts, app_nil_r. auto.
    - eauto. }
  destruct (read a st) as [|c l] eqn:R0.
  - cbn [fst snd]. apply ended; [reflexivity|exact Hi|reflexivity].
  - destruct (normalize_from 0 (c :: l)) as [arr [|e|e]] eqn:N; cbn [fst snd].
    + set (p := dispatch (s_emitters st) (fst (parse_target (repo (s_options st))))
                         (snd (parse_target (repo (s_options st)))) arr).
      set (s0 := write a arr (snd (new_emitter st))).
      set (E0 := dispatch_events gh (s_emitters st)
                   (fst (parse_target (repo (s_options st))))
                   (snd (parse_target (repo (s_options st)))) arr).
      exists (become Idle (log (map Request (requests p)) (k s0))),
             (flat_map (relay R) E0),
             [Callback (dispatch_outcome gh (fst (parse_target (repo (s_options st))))
                          (snd (parse_target (repo (s_options st)))) arr)].
      repeat split.
      * intros sched Hn. rewrite Kl.
        destruct (exec_launch gh p _ _ _ (k s0) sched
                    (eval_dispatch gh (s_emitters st) _ _ arr)) as (T & HT & Hx);
          [unfold p; rewrite leaves_dispatch; lia|exact Hn|].
        exists T. split.
        -- rewrite HT. rewrite (Kr s0 eq_refl). reflexivity.
        -- rewrite Hx. unfold become, log. cbn. rewrite <- !app_assoc. reflexivity.
      * exists (map Request (requests p)). repeat split.
        -- cbn. rewrite Kt. reflexivity.
        -- apply benign_dispatch_requests.
        -- apply count_dispatch_requests. intros r Hr. cbn. rewrite Hr. reflexivity.
        -- apply count_dispatch_requests. reflexivity.
      * apply benign_relays, benign_dispatch_events.
        apply (normalized_well_formed _ _ N).
      * rewrite count_writes_relays.
        destruct (count_writes_dispatch gh (s_emitters st)
                    (fst (parse_target (repo (s_options st))))
                    (snd (parse_target (repo (s_options st)))) arr) as [Hc Ho].
        fold E0 in Hc, Ho. rewrite Hc. apply Kann, Ho.
      * eauto.
    + apply ended; [reflexivity|exact Hi|reflexivity].
    + split; [exact Hi|reflexivity].
Qed.

Lemma run_result gh labels o schedule :
  snd (run gh labels o schedule) = snd (GitHubLabeller 0 (initial labels o)).
Proof.
  unfold run. destruct (GitHubLabeller 0 (initial labels o)). reflexivity.
Qed.

(** Every run, given [turns] turns: it either threw at once, or it goes,
    whatever the schedule, to one and the same end. *)
Lemma run_complete gh labels o :
  (exists e,
     forall schedule,
       snd (run gh labels o schedule) = Raised e
       /\ s_act (fst (run gh labels o schedule)) = Idle
       /\ s_trace (fst (run gh labels o schedule)) = []
       /\ fst (run gh labels o schedule) = fst (GitHubLabeller 0 (initial labels o)))
  \/
  ((forall schedule, snd (run gh labels o schedule) = Returned 0)
   /\ completes (turns gh labels o) (fun sched => fst (run gh labels o sched)) []).
Proof.
  unfold turns. destruct (truthy (source o)) eqn:Hs.
  - right. split.
    { intros schedule. rewrite run_result, (run_source_call labels o Hs). reflexivity. }
    destruct (listing gh (source_request (source o))) as [err|lbls] eqn:L.
    + exists (State [labels] o 1 [] Idle [Request (source_request (source o))]),
             [], [Callback (Fired (Some err) Undefined)].
      repeat split.
      * intros [|k rest] Hn; [cbn in Hn; lia|]. exists []. split; [constructor|].
        unfold run. rewrite (run_source_call labels o Hs). cbn [fst exec].
        unfold turn. cbn [s_act]. rewrite L. apply exec_Idle. reflexivity.
      * exists [Request (source_request (source o))]. repeat split.
      * eauto.
    + pose proof (call_complete gh 1 (merged_state labels lbls o) (on_added 1 0)
                    [(1, 0)] (fun _ => eq_refl) (fun _ => eq_refl)
                    (fun _ _ => eq_refl) (fun _ _ => eq_refl)
                    (fun s (H : s_relays s = []) => f_equal (cons (1, 0)) H)
                    announced_relayed eq_refl eq_refl) as C.
      assert (Hrun : forall k rest,
                fst (run gh labels o (k :: rest)) = exec gh rest (rerun labels lbls o))
        by (intros k rest; rewrite (run_sourced gh labels o k rest lbls Hs L);
            reflexivity).
      unfold rerun in Hrun.
      destruct (GitHubLabeller_returns 1 (merged_state labels lbls o) eq_refl)
        as [R | [e R]];
        destruct (GitHubLabeller 1 (merged_state labels lbls o)) as [st1 res];
        cbn [fst snd] in *; subst res.
      * destruct C as (base & E & post & Hx & Hb & (pre & Hpre & Bpre & Wpre & Apre)
                       & BE & CE & Hpost).
        exists base, E, post. repeat split; try assumption.
        -- intros [|k rest] Hn; [cbn in Hn; lia|]. rewrite Hrun. apply Hx.
           exact (le_S_n _ _ Hn).
        -- exists (Request (source_request (source o)) :: pre). repeat split.
           ++ rewrite Hpre. reflexivity.
           ++ exact Bpre.
           ++ exact Wpre.
           ++ exact Apre.
      * destruct C as [Ca Ct].
        exists st1, [], [Uncaught e]. repeat split.
        -- intros [|k rest] Hn; [cbn in Hn; lia|]. exists []. split; [constructor|].
           rewrite Hrun. apply exec_Idle. exact Ca.
        -- exact Ca.
        -- exists [Request (source_request (source o))]. rewrite Ct. repeat split.
        -- eauto.
  - pose proof (call_complete gh 0 (initial labels o) (fun s => s) []
                  (fun _ => eq_refl) (fun _ => eq_refl) (fun _ _ => eq_refl)
                  (fun _ _ => eq_refl) (fun s (H : s_relays s = []) => H)
                  (fun E _ => announced_plain E) Hs eq_refl) as C.
    destruct (GitHubLabeller_returns 0 (initial labels o) Hs) as [R | [e R]].
    + right. split; [intros schedule; rewrite run_result; exact R|].
      rewrite R in C. unfold run.
      destruct (GitHubLabeller 0 (initial labels o)) as [st1 res]. exact C.
    + left. exists e. intros schedule. rewrite run_result. split; [exact R|].
      rewrite R in C. unfold run.
      destruct (GitHubLabeller 0 (initial labels o)) as [st1 res]. cbn [fst] in *.
      destruct C as [Ca Ct]. rewrite exec_Idle by exact Ca. auto.
Qed.

(** ** What no run ever does *)

Lemma count_benign f T :
  (forall e, benign e = true -> f e = false) ->
  forallb benign T = true -> count f T = 0.
Proof.
  intros Hf. unfold count. induction T as [|e T IH]; [reflexivity|].
  cbn [forallb filter]. intros H. apply andb_true_iff in H as [He HT].
  rewrite (Hf e He). exact (IH HT).
Qed.

Lemma benign_not_final e : benign e = true -> final e = false.
Proof. destruct e; cbn; congruence. Qed.

Lemma benign_not_callback e : benign e = true -> is_callback e = false.
Proof. destruct e; cbn; congruence. Qed.

(** X6. Whatever the labels, the options, the answers of the client and
    the order and number of answers so far, the caller's callback has
    been called at most once; and when it has, that call is the last
    thing that happened and no request is in flight. *)
Theorem callback_at_most_once gh labels o schedule :
  count is_callback (s_trace (fst (run gh labels o schedule))) <= 1
  /\ (count is_callback (s_trace (fst (run gh labels o schedule))) = 1 ->
      s_act (fst (run gh labels o schedule)) = Idle
      /\ exists before out,
           s_trace (fst (run gh labels o schedule)) = before ++ [Callback out]
           /\ count is_callback before = 0).
Proof.
  destruct (run_shape gh labels o schedule) as (T & tail & H & B & Ht).
  cbn [app] in H. rewrite H, count_app.
  rewrite (count_benign is_callback T benign_not_callback B). cbn [Nat.add].
  destruct Ht as [-> | (x & -> & F & I)].
  - split; [cbn; lia|]. cbn. discriminate.
  - split; [unfold count; cbn; destruct (is_callback x); cbn; lia|].
    intros C. split.
    + unfold idle in I. destruct (s_act (fst (run gh labels o schedule)));
        [reflexivity|discriminate|discriminate].
    + destruct x as [| |out|]; try (cbn in C; discriminate).
      exists T, out. split; [reflexivity|].
      apply (count_benign is_callback T benign_not_callback B).
Qed.

Lemma callback_at_most_once_witness :
  s_act (fst (run Sample.remote [Sample.label "bug" "#f00"]
                  (Options "acme" None None) [0; 2; 0; 1; 0; 0; 5])) = Idle.
Proof.
  apply (proj2 (callback_at_most_once Sample.remote [Sample.label "bug" "#f00"]
                  (Options "acme" None None) [0; 2; 0; 1; 0; 0; 5])).
  reflexivity.
Defined.

(** X8. Whatever the run and however far it has got, every request that
    carries [data] carries a [{name, color}] object and nothing else,
    name and color both non-empty, and does not ask for all pages: no
    label that the loop of lines 56-72 has not rebuilt is ever sent. *)
Theorem writes_carry_rebuilt_labels gh labels o schedule r c :
  In (Request r) (s_trace (fst (run gh labels o schedule))) ->
  data r = Some c ->
  truthy (o_name c) = true /\ truthy (o_color c) = true
  /\ o_label c = None /\ o_rest c = [] /\ all r = false.
Proof.
  intros Hin Hd.
  destruct (run_shape gh labels o schedule) as (T & tail & H & B & Ht).
  cbn [app] in H. rewrite H in Hin. apply in_app_or in Hin as [Hin|Hin].
  - pose proof (proj1 (forallb_forall benign T) B _ Hin) as Bx. cbn [benign] in Bx.
    rewrite Hd in Bx. unfold well_formed in Bx.
    repeat (apply andb_true_iff in Bx; destruct Bx as [Bx ?]).
    destruct (o_label c); [discriminate|]. destruct (o_rest c); [|discriminate].
    destruct (all r); [discriminate|]. auto.
  - destruct Ht as [-> | (x & -> & F & _)]; [contradiction|].
    destruct Hin as [E|[]]. subst x. discriminate F.
Qed.

Lemma writes_carry_rebuilt_labels_witness :
  truthy (o_name (Sample.label "bug" "f00")) = true
  /\ truthy (o_color (Sample.label "bug" "f00")) = true
  /\ o_label (Sample.label "bug" "f00") = None
  /\ o_rest (Sample.label "bug" "f00") = []
  /\ all (Req "repos/acme/widgets/labels/bug" false
              (Some (Sample.label "bug" "f00"))) = false.
Proof.
  apply (writes_carry_rebuilt_labels Sample.remote
           [Obj None (Some "bug") (Some "#f00") [("id", "7")]]
           (Options "acme/widgets" None None) [0]
           (Req "repos/acme/widgets/labels/bug" false (Some (Sample.label "bug" "f00")))
           (Sample.label "bug" "f00")).
  - cbn. right. left. reflexivity.
  - reflexivity.
Defined.

(** ** What every run comes to *)

Lemma final_counts x :
  final x = true ->
  count is_callback [x] + count is_uncaught [x] = 1
  /\ count is_write [x] = 0 /\ forall ev, count (is_added_on ev) [x] = 0.
Proof. destruct x; cbn; try discriminate; auto. Qed.

Lemma benign_not_uncaught e : benign e = true -> is_uncaught e = false.
Proof. destruct e; cbn; congruence. Qed.

(** X7. Take labels whose names can all be URL-encoded, those of the
    source included.  Once as many requests have been answered as the
    run makes ([turns] of them, at most one per turn), in whatever order,
    nothing is in flight any more, and exactly one of three things has
    happened: the call itself threw, before requesting anything; or the
    caller's callback was called, once; or an exception escaped the
    callback of the source listing, and the caller's callback was never
    called. *)
Theorem run_ends gh labels o schedule :
  forallb encodable labels = true ->
  (forall lbls, truthy (source o) = true ->
                listing gh (source_request (source o)) = inr lbls ->
                forallb encodable lbls = true) ->
  turns gh labels o <= length schedule ->
  s_act (fst (run gh labels o schedule)) = Idle
  /\ ((exists e, snd (run gh labels o schedule) = Raised e
                 /\ s_trace (fst (run gh labels o schedule)) = [])
      \/ (snd (run gh labels o schedule) = Returned 0
          /\ count is_callback (s_trace (fst (run gh labels o schedule)))
             + count is_uncaught (s_trace (fst (run gh labels o schedule))) = 1)).
Proof.
  intros _ _ Hn. destruct (run_complete gh labels o) as [[e H] | [Hr C]].
  - destruct (H schedule) as (R & A & T & _). split; [exact A|]. left. eauto.
  - destruct C as (base & E & post & Hx & Hb & (pre & Hpre & Bpre & _) & BE & _
                   & (x & -> & Fx)).
    destruct (Hx schedule Hn) as (T & HT & Hrun). rewrite Hrun.
    unfold log. cbn [s_act s_trace].
    split; [exact Hb|]. right. split; [apply Hr|].
    rewrite Hpre. cbn [app]. rewrite !count_app.
    rewrite (count_benign is_callback pre benign_not_callback Bpre).
    rewrite (count_benign is_uncaught pre benign_not_uncaught Bpre).
    rewrite (count_benign is_callback T benign_not_callback),
            (count_benign is_uncaught T benign_not_uncaught)
      by (rewrite (forallb_Permutation benign _ _ HT); exact BE).
    destruct (final_counts x Fx) as [F1 _]. cbn [Nat.add]. exact F1.
Qed.

Lemma run_ends_witness :
  turns Sample.remote [Sample.label "bug" "#f00"]
        (Options "acme" (Some "src/labs") None) = 11
  /\ s_act (fst (run Sample.remote [Sample.label "bug" "#f00"]
                     (Options "acme" (Some "src/labs") None)
                     [0; 2; 1; 0; 3; 1; 1; 0; 2; 0; 0])) = Idle.
Proof.
  split; [reflexivity|].
  apply (run_ends Sample.remote [Sample.label "bug" "#f00"]
           (Options "acme" (Some "src/labs") None)
           [0; 2; 1; 0; 3; 1; 1; 0; 2; 0; 0]).
  - reflexivity.
  - intros lbls _ H. vm_compute in H. injection H as <-. reflexivity.
  - vm_compute. lia.
Defined.

(** X9. Once the run has ended, the emitter returned to the caller has
    seen exactly as many ["added"] emissions as writes were requested:
    each write is announced on it once, whether it was issued by the
    call itself or by the second call made after a source listing. *)
Theorem writes_announced_on_returned_emitter gh labels o schedule ev :
  turns gh labels o <= length schedule ->
  snd (run gh labels o schedule) = Returned ev ->
  count (is_added_on ev) (s_trace (fst (run gh labels o schedule)))
  = count is_write (s_trace (fst (run gh labels o schedule))).
Proof.
  intros Hn Hev. destruct (run_complete gh labels o) as [[e H] | [Hr C]].
  - destruct (H schedule) as (R & _). congruence.
  - rewrite Hr in Hev. injection Hev as <-.
    destruct C as (base & E & post & Hx & _ & (pre & Hpre & _ & Wpre & Apre) & _ & CE
                   & (x & -> & Fx)).
    destruct (Hx schedule Hn) as (T & HT & Hrun). rewrite Hrun.
    unfold log. cbn [s_trace]. rewrite Hpre. cbn [app]. rewrite !count_app.
    rewrite !(count_Permutation _ _ _ HT), Wpre, Apre, CE.
    destruct (final_counts x Fx) as (_ & Fw & Fa). rewrite Fw, (Fa 0). reflexivity.
Qed.

Lemma writes_announced_on_returned_emitter_witness :
  count (is_added_on 0)
    (s_trace (fst (run Sample.remote [Sample.label "bug" "#f00"]
                       (Options "acme" (Some "src/labs") None)
                       [0; 2; 1; 0; 3; 1; 1; 0; 2; 0; 0])))
  = count is_write
      (s_trace (fst (run Sample.remote [Sample.label "bug" "#f00"]
                         (Options "acme" (Some "src/labs") None)
                         [0; 2; 1; 0; 3; 1; 1; 0; 2; 0; 0]))).
Proof.
  apply (writes_announced_on_returned_emitter Sample.remote
           [Sample.label "bug" "#f00"] (Options "acme" (Some "src/labs") None)
           [0; 2; 1; 0; 3; 1; 1; 0; 2; 0; 0] 0).
  - vm_compute. lia.
  - reflexivity.
Defined.

(** X12. The order in which the remote answers does not matter to
    what the run asks of the remote and announces: for labels whose
    names can all be URL-encoded, two runs on the same arguments and the
    same client, each given turns enough, return alike, leave the same
    arrays, options and relays, show the same requests, emissions and
    escaped exceptions, in possibly different orders, and call the
    caller's callback equally often.  (What the callback is handed is
    left out: among several failures the join picks by completion.) *)
Theorem schedule_does_not_matter gh labels o s1 s2 :
  forallb encodable labels = true ->
  (forall lbls, truthy (source o) = true ->
                listing gh (source_request (source o)) = inr lbls ->
                forallb encodable lbls = true) ->
  turns gh labels o <= length s1 ->
  turns gh labels o <= length s2 ->
  snd (run gh labels o s1) = snd (run gh labels o s2)
  /\ s_arrays (fst (run gh labels o s1)) = s_arrays (fst (run gh labels o s2))
  /\ s_options (fst (run gh labels o s1)) = s_options (fst (run gh labels o s2))
  /\ s_relays (fst (run gh labels o s1)) = s_relays (fst (run gh labels o s2))
  /\ Permutation
       (filter (fun e => negb (is_callback e)) (s_trace (fst (run gh labels o s1))))
       (filter (fun e => negb (is_callback e)) (s_trace (fst (run gh labels o s2))))
  /\ count is_callback (s_trace (fst (run gh labels o s1)))
     = count is_callback (s_trace (fst (run gh labels o s2))).
Proof.
  intros _ _ H1 H2. split; [rewrite !run_result; reflexivity|].
  destruct (run_complete gh labels o) as [[e H] | [_ C]].
  - destruct (H s1) as (_ & _ & _ & ->). destruct (H s2) as (_ & _ & _ & ->).
    repeat split; reflexivity.
  - destruct C as (base & E & post & Hx & _ & _ & _ & _ & (x & -> & _)).
    destruct (Hx s1 H1) as (T1 & HT1 & ->). destruct (Hx s2 H2) as (T2 & HT2 & ->).
    unfold log. cbn [s_arrays s_options s_relays s_trace].
    assert (P : Permutation (s_trace base ++ T1 ++ [x]) (s_trace base ++ T2 ++ [x])).
    { apply Permutation_app_head, Permutation_app_tail. rewrite HT1, HT2. reflexivity. }
    repeat split.
    + apply Permutation_filter, P.
    + apply count_Permutation, P.
Qed.

Lemma schedule_does_not_matter_witness :
  Permutation
    (filter (fun e => negb (is_callback e))
       (s_trace (fst (run Sample.remote [Sample.label "bug" "#f00"]
                          (Options "acme" None None) [0; 0; 0; 0; 0; 0]))))
    (filter (fun e => negb (is_callback e))
       (s_trace (fst (run Sample.remote [Sample.label "bug" "#f00"]
                          (Options "acme" None None) [0; 2; 1; 1; 0; 0; 4])))).
Proof.
  apply (schedule_does_not_matter Sample.remote [Sample.label "bug" "#f00"]
           (Options "acme" None None) [0; 0; 0; 0; 0; 0] [0; 2; 1; 1; 0; 0; 4]).
  - reflexivity.
  - discriminate.
  - vm_compute. lia.
  - vm_compute. lia.
Defined.

(** ** Failures on the way *)

Lemma normalize_from_throw i good bad rest :
  forallb valid good = true ->
  o_color bad = None ->
  normalize_from i (good ++ bad :: rest)
  = (map normal good ++ bad :: rest, Threw charAt_undefined).
Proof.
  intros Hg Hc. revert i. induction good as [|c good IH]; intros i.
  - cbn [app map normalize_from]. unfold normalize. rewrite Hc. reflexivity.
  - cbn [forallb] in Hg. apply andb_true_iff in Hg as [Hv Hg].
    cbn [app map normalize_from]. unfold valid in Hv.
    destruct (o_color c) as [col|] eqn:C;
      [|unfold normalize in Hv; rewrite C in Hv; discriminate].
    rewrite (normalize_normal c col C) in *.
    apply andb_true_iff in Hv as [Hn Hcol]. rewrite Hn, Hcol. cbn [negb].
    rewrite (IH Hg (S i)). reflexivity.
Qed.

(** X2. With no source, a label that has no [color] property at all, the
    labels before it being well-formed, makes the call throw a
    [TypeError]: the caller's callback is never called, nothing is
    requested, no emitter is returned, and the labels before the
    offending one have already been overwritten in the caller's array. *)
Theorem missing_color_throws gh good bad rest o schedule :
  truthy (source o) = false ->
  forallb valid good = true ->
  o_color bad = None ->
  run gh (good ++ bad :: rest) o schedule
  = (State [map normal good ++ bad :: rest] o 1 [] Idle [], Raised charAt_undefined).
Proof.
  intros Hs Hg Hc. unfold run.
  rewrite (GitHubLabeller_plain 0 (initial (good ++ bad :: rest) o) Hs).
  cbn [initial read s_arrays nth].
  rewrite (normalize_from_throw 0 good bad rest Hg Hc).
  destruct (good ++ bad :: rest) as [|c l] eqn:E; [destruct good; discriminate|].
  cbn. rewrite exec_Idle by reflexivity. reflexivity.
Qed.

Lemma missing_color_throws_witness :
  run Sample.remote [Sample.label "bug" "#f00"; Sample.named "feat"]
      (Options "acme/widgets" None None) [0; 1]
  = (State [[Sample.label "bug" "f00"; Sample.named "feat"]]
           (Options "acme/widgets" None None) 1 [] Idle [],
     Raised charAt_undefined).
Proof.
  apply (missing_color_throws Sample.remote [Sample.label "bug" "#f00"]
           (Sample.named "feat") [] (Options "acme/widgets" None None) [0; 1]);
    reflexivity.
Defined.

(** X3. When the listing of the source repository fails, the caller is
    called back once with that error and nothing else is requested; the
    caller's array is untouched and the options object still has its
    source. *)
Theorem source_listing_failure gh labels o k schedule err :
  truthy (source o) = true ->
  listing gh (source_request (source o)) = inl err ->
  run gh labels o (k :: schedule)
  = (State [labels] o 1 [] Idle
           [Request (source_request (source o));
            Callback (Fired (Some err) Undefined)],
     Returned 0).
Proof.
  intros Hs Hl. unfold run. rewrite (run_source_call labels o Hs).
  cbn [exec]. unfold turn. cbn [s_act]. rewrite Hl.
  rewrite exec_Idle by reflexivity. reflexivity.
Qed.

Lemma source_listing_failure_witness :
  run Sample.remote [Sample.label "bug" "#f00"]
      (Options "acme/widgets" (Some "acme/B") None) [0; 0]
  = (State [[Sample.label "bug" "#f00"]]
           (Options "acme/widgets" (Some "acme/B") None) 1 [] Idle
           [Request (Req "repos/acme/B/labels" true None);
            Callback (Fired (Some (Remote "500")) Undefined)],
     Returned 0).
Proof.
  apply (source_listing_failure Sample.remote [Sample.label "bug" "#f00"]
           (Options "acme/widgets" (Some "acme/B") None) 0 [0] (Remote "500"));
    reflexivity.
Defined.

(** X14. When a source is given and one of the merged labels has no
    [color] property, the labels before it being well-formed, the
    exception is thrown inside the callback of the source listing: it
    escapes, the caller's callback is never called, and nothing but the
    source listing is ever requested. *)
Theorem sourced_label_without_color_goes_unreported
    gh labels o k schedule lbls good bad rest :
  truthy (source o) = true ->
  listing gh (source_request (source o)) = inr lbls ->
  labels ++ lbls = good ++ bad :: rest ->
  forallb valid good = true ->
  o_color bad = None ->
  run gh labels o (k :: schedule)
  = (State [labels; map normal good ++ bad :: rest]
           (Options (repo o) None (token o)) 2 [] Idle
           [Request (source_request (source o)); Uncaught charAt_undefined],
     Returned 0).
Proof.
  intros Hs Hl He Hg Hc. rewrite (run_sourced gh labels o k schedule lbls Hs Hl).
  unfold rerun. rewrite (GitHubLabeller_plain 1 (merged_state labels lbls o) eq_refl).
  cbn [merged_state read s_arrays nth]. rewrite He.
  rewrite (normalize_from_throw 0 good bad rest Hg Hc).
  destruct (good ++ bad :: rest) as [|c l] eqn:E; [destruct good; discriminate|].
  cbn. rewrite exec_Idle by reflexivity. reflexivity.
Qed.

Lemma sourced_label_without_color_goes_unreported_witness :
  run Sample.remote [Sample.named "bug"]
      (Options "acme/widgets" (Some "src/labs") None) [0; 0]
  = (State [[Sample.named "bug"];
            [Sample.named "bug"; Sample.label "bug" "00f"; Sample.label "feat" "0f0"]]
           (Options "acme/widgets" None None) 2 [] Idle
           [Request (Req "repos/src/labs/labels" true None);
            Uncaught charAt_undefined],
     Returned 0).
Proof.
  apply (sourced_label_without_color_goes_unreported Sample.remote
           [Sample.named "bug"] (Options "acme/widgets" (Some "src/labs") None) 0 [0]
           [Sample.label "bug" "00f"; Sample.label "feat" "0f0"]
           [] (Sample.named "bug")
           [Sample.label "bug" "00f"; Sample.label "feat" "0f0"]);
    reflexivity.
Defined.

(** X5. With a target naming one repository, when the fetch of its
    existing labels fails the caller is called back once with that error:
    no write is requested and nothing is emitted.  The caller's array has
    been normalized in place all the same. *)
Theorem existing_labels_failure_aborts gh labels o k schedule user r err :
  truthy (source o) = false ->
  labels <> [] ->
  forallb valid labels = true ->
  parse_target (repo o) = (user, Some r) -> r <> "" ->
  listing gh (check_request user r) = inl err ->
  run gh labels o (k :: schedule)
  = (State [map normal labels] o 1 [] Idle
           [Request (check_request user r); Callback (Fired (Some err) Undefined)],
     Returned 0).
Proof.
  intros Hs Hne Hv Hp Hr Hl.
  destruct (run_pair gh labels o (k :: schedule) user r Hs Hne Hv Hp Hr)
    as (T & HT & Hx).
  - unfold repo_requests. rewrite Hl. cbn. lia.
  - unfold repo_events in HT. rewrite Hl in HT. apply Permutation_sym, Permutation_nil in HT. subst T.
    rewrite Hx. unfold repo_outcome. rewrite Hl. reflexivity.
Qed.

Lemma existing_labels_failure_aborts_witness :
  run Sample.remote [Sample.label "bug" "#f00"] (Options "acme/B" None None) [0; 0]
  = (State [[Sample.label "bug" "f00"]] (Options "acme/B" None None) 1 [] Idle
           [Request (Req "repos/acme/B/labels" false None);
            Callback (Fired (Some (Remote "500")) Undefined)],
     Returned 0).
Proof.
  apply (existing_labels_failure_aborts Sample.remote [Sample.label "bug" "#f00"]
           (Options "acme/B" None None) 0 [0] "acme" "B" (Remote "500"));
    try reflexivity; discriminate.
Defined.

(** X4. With a target naming a user, when the listing of the user's
    repositories fails the caller is called back once with that error
    and no repository is looked at. *)
Theorem repository_listing_failure_aborts gh labels o k schedule user r err :
  truthy (source o) = false ->
  labels <> [] ->
  forallb valid labels = true ->
  parse_target (repo o) = (user, r) -> truthy r = false ->
  listing gh (repos_request user) = inl err ->
  run gh labels o (k :: schedule)
  = (State [map normal labels] o 1 [] Idle
           [Request (repos_request user); Callback (Fired (Some err) Undefined)],
     Returned 0).
Proof.
  intros Hs Hne Hv Hp Hr Hl.
  destruct (run_valid gh labels o (k :: schedule) 1 (Fired (Some err) Undefined) []
              Hs Hne Hv) as (T & HT & Hx).
  - rewrite Hp. cbn [fst snd]. unfold dispatch. rewrite Hr.
    apply eval_not_listed, Hl.
  - cbn. lia.
  - apply Permutation_sym, Permutation_nil in HT. subst T. rewrite Hx, Hp. cbn [fst snd].
    unfold dispatch. rewrite Hr. reflexivity.
Qed.

Lemma repository_listing_failure_aborts_witness :
  run (Client (fun _ => inl (Remote "404")) (fun _ => (None, Null)))
      [Sample.label "bug" "#f00"] (Options "nobody" None None) [0]
  = (State [[Sample.label "bug" "f00"]] (Options "nobody" None None) 1 [] Idle
           [Request (Req "users/nobody/repos" true None);
            Callback (Fired (Some (Remote "404")) Undefined)],
     Returned 0).
Proof.
  apply (repository_listing_failure_aborts
           (Client (fun _ => inl (Remote "404")) (fun _ => (None, Null)))
           [Sample.label "bug" "#f00"] (Options "nobody" None None) 0 []
           "nobody" None (Remote "404"));
    try reflexivity; discriminate.
Defined.

(** X13. When a source is given, no label is passed and the source
    repository has none, the second call finds nothing to do: the caller
    is called back once with [(null, null)], after the source listing and
    nothing else; the options object has lost its source. *)
Theorem empty_source_is_a_noop gh o k schedule :
  truthy (source o) = true ->
  listing gh (source_request (source o)) = inr [] ->
  run gh [] o (k :: schedule)
  = (State [[]; []] (Options (repo o) None (token o)) 2 [(1, 0)] Idle
           [Request (source_request (source o)); Callback (Fired None Null)],
     Returned 0).
Proof.
  intros Hs Hl. rewrite (run_sourced gh [] o k schedule [] Hs Hl).
  unfold rerun. rewrite (GitHubLabeller_plain 1 (merged_state [] [] o) eq_refl).
  cbn. rewrite exec_Idle by reflexivity. reflexivity.
Qed.

Lemma empty_source_is_a_noop_witness :
  run Sample.remote [] (Options "acme/widgets" (Some "acme/A") None) [0; 0]
  = (State [[]; []] (Options "acme/widgets" None None) 2 [(1, 0)] Idle
           [Request (Req "repos/acme/A/labels" true None); Callback (Fired None Null)],
     Returned 0).
Proof.
  apply (empty_source_is_a_noop Sample.remote
           (Options "acme/widgets" (Some "acme/A") None) 0 [0]); reflexivity.
Defined.

(** ** Which targets name one repository *)

Lemma parse_target_two target user r :
  parse_target target = (user, Some r) ->
  target = (user ++ "/" ++ r)%string
  /\ has_slash user = false /\ has_slash r = false.
Proof.
  unfold parse_target. intros H.
  pose proof (join_split target) as J. pose proof (split_no_slash target) as N.
  destruct (split "/" target) as [|a [|b [|c l]]]; try discriminate H.
  injection H as -> ->. cbn [join] in J. cbn [forallb] in N.
  apply andb_true_iff in N as [Na N]. apply andb_true_iff in N as [Nb _].
  apply negb_true_iff in Na, Nb. auto.
Qed.

Lemma parse_target_joined user r :
  has_slash user = false -> has_slash r = false ->
  parse_target (user ++ "/" ++ r) = (user, Some r).
Proof.
  intros Hu Hr. unfold parse_target.
  change (user ++ "/" ++ r)%string with (user ++ String "/" r)%string.
  rewrite (split_app user r Hu), (split_plain r Hr). reflexivity.
Qed.

(** X10. The program works on one repository exactly when the target
    is two slash-free segments around one ["/"], the second of them not
    empty, and then on the repository these two name.  Every other target
    has the repositories of a user listed: a target without ["/"] those
    of the user it names, and a target that ends in its only ["/"] those
    of the user named before the ["/"]. *)
Theorem one_repository_iff_two_segments ev target labels user r :
  (dispatch ev (fst (parse_target target)) (snd (parse_target target)) labels
   = checkRepo ev user r labels
   <-> target = (user ++ "/" ++ r)%string
       /\ has_slash user = false /\ has_slash r = false /\ r <> "")
  /\ (has_slash target = false ->
      dispatch ev (fst (parse_target target)) (snd (parse_target target)) labels
      = Wait (repos_request target) (KRepos ev target labels))
  /\ (has_slash user = false ->
      dispatch ev (fst (parse_target (user ++ "/")))
               (snd (parse_target (user ++ "/"))) labels
      = Wait (repos_request user) (KRepos ev user labels))
  /\ ((exists u b,
         dispatch ev (fst (parse_target target)) (snd (parse_target target)) labels
         = checkRepo ev u b labels)
      \/ (exists u,
            dispatch ev (fst (parse_target target)) (snd (parse_target target)) labels
            = Wait (repos_request u) (KRepos ev u labels))).
Proof.
  split; [|split; [|split]].
  - split.
    + unfold dispatch. destruct (parse_target target) as [u [b|]] eqn:P; cbn [fst snd].
      * destruct b as [|x b]; cbn [truthy]; [discriminate|].
        unfold checkRepo. cbn [to_string]. intros H.
        assert (K : KCheck ev u (String x b) labels = KCheck ev user r labels)
          by (inversion H; reflexivity).
        injection K as -> <-. destruct (parse_target_two target user _ P) as (E & Nu & Nr).
        repeat split; try assumption. discriminate.
      * cbn [truthy]. discriminate.
    + intros (-> & Nu & Nr & Hr). rewrite (parse_target_joined user r Nu Nr).
      cbn [fst snd]. unfold dispatch. destruct r; [congruence|]. reflexivity.
  - intros H. unfold parse_target. rewrite (split_plain target H). reflexivity.
  - intros H. pose proof (parse_target_joined user "" H eq_refl) as P.
    change (user ++ "/" ++ "")%string with (user ++ "/")%string in P.
    rewrite P. reflexivity.
  - unfold dispatch. destruct (truthy (snd (parse_target target))); eauto.
Qed.

Lemma one_repository_iff_two_segments_witness :
  dispatch 0 (fst (parse_target "acme/widgets")) (snd (parse_target "acme/widgets")) []
  = checkRepo 0 "acme" "widgets" []
  /\ dispatch 0 (fst (parse_target "acme/")) (snd (parse_target "acme/")) []
     = Wait (repos_request "acme") (KRepos 0 "acme" []).
Proof.
  split.
  - apply (proj2 (proj1 (one_repository_iff_two_segments 0 "acme/widgets" []
                           "acme" "widgets"))).
    repeat split; discriminate.
  - apply (proj1 (proj2 (proj2 (one_repository_iff_two_segments 0 "acme/widgets" []
                                  "acme" "widgets")))).
    reflexivity.
Defined.

(** ** How the two fan-outs multiply *)









(** ** Sanity checks of the JavaScript primitives *)

Example split_pair : split "/" "acme/widgets" = ["acme"; "widgets"].
Proof. reflexivity. Qed.

Example split_trailing : split "/" "acme/" = ["acme"; ""].
Proof. reflexivity. Qed.

Example encode_space : encodeURIComponent "help wanted" = "help%20wanted".
Proof. reflexivity. Qed.

Example decimal_12 : decimal 12 = "12".
Proof. reflexivity. Qed.

Example encode_slash : encodeURIComponent "ui/ux" = "ui%2Fux".
Proof. reflexivity. Qed.

Example surrogate_refused : encodeURIComponent_or_throw Tracker.U_D800 = None.
Proof. reflexivity. Qed.

Example below_surrogates_encoded :
  encodeURIComponent_or_throw
    (String (ascii_of_nat 237) (String (ascii_of_nat 159)
       (String (ascii_of_nat 191) EmptyString)))
  = Some "%ED%9F%BF".
Proof. reflexivity. Qed.
